(** * graphql-weaver: link resolution, type resolvers and schema merging

    A shallow embedding of

    - [src/src/graphql/links.ts]: [SchemaLinkTransformer] with its in-file
      query-building helpers ([createNestedArgumentWithVariableNode],
      [splitTypeName], ...), followed in the same file by the
      [TypeResolversTransformer];
    - [src/unnamed/part_000]: [SchemaLinkTransformer] once more, building
      its sub-query with the helpers of [./language-utils] and
      [./field-as-query];
    - [src/src/graphql/schema-merger.ts].

    The two transformers are embedded side by side (modules [LinksTs] and
    [Part000]); what they share word for word ([config.resolve], the checks
    of [transformField]) is embedded once.

    Asynchronous code is embedded by explicit state passing: a [World]
    carries the log of backend dispatches, the closure variable
    [keyFieldAlias] and the [dataLoaders] table of one [transformField]
    closure; a promise is a value of its own ([JPromise]) holding the
    completion it settles to.  Where a function reads the state of the
    closure after an [await] ([resolveBatch] of [part_000]), what the
    other batches of the link wrote in the meantime is a parameter of the
    embedding. *)

From Stdlib Require Import ZArith Ascii String.
From stdpp Require Import base option list strings gmap.

Set Warnings "-register-all".
Open Scope string_scope.
Open Scope list_scope.

(** ** Completions: a normal result or a thrown error *)

(** The errors the embedded code throws.  [TypeError] is the engine's own
    (a property read on [null]/[undefined], [in] on a primitive);
    [NonNullOfNonNull] and [SchemaQueryMustBeObjectType] are the assertions
    of the constructors [GraphQLNonNull] and [GraphQLSchema] of the
    [graphql] package that the embedded code can run into;
    [BackendFailure] is whatever the transport collaborator rejects with. *)
Inductive Error :=
| TypeError
| ArgumentMustNotBeEmpty
| NonNullOfNonNull
| SchemaQueryMustBeObjectType
| EndpointNotFound (endpoint : string)
| LinkToNonexistentEndpoint (linkName endpoint : string)
| ExpectedObjectType (endpoint : string)
| TypenameMissing (abstractType : string)
| NoTypeWithThatName (abstractType : string)
| NotAnObjectType (abstractType : string)
| BackendFailure (msg : string).

Inductive Completion (A : Type) :=
| Normal (a : A)
| Throw (e : Error).
Arguments Normal {A} a.
Arguments Throw {A} e.

Definition isThrow {A} (c : Completion A) : bool :=
  match c with Throw _ => true | Normal _ => false end.

(** A completion continued: a throw ends the computation. *)
Definition andThen {A B} (c : Completion A) (k : A -> Completion B) : Completion B :=
  match c with
  | Normal a => k a
  | Throw e => Throw e
  end.

(** ** JavaScript values *)

Module Js.

(** JSON data plus promises.  Numbers are the integers (link keys and
    response data are ids, counters and strings; fractions play no role in
    truthiness or key equality other than being non-zero). *)
Inductive JsValue :=
| JUndefined
| JNull
| JBool (b : bool)
| JNum (n : Z)
| JStr (s : string)
| JArr (items : list JsValue)
| JObj (props : list (string * JsValue))
| JPromise (settled : Completion JsValue).

(** [if (!value)]: the falsy values are [undefined], [null], [false], [0]
    and the empty string. *)
Definition truthy (v : JsValue) : bool :=
  match v with
  | JUndefined | JNull => false
  | JBool b => b
  | JNum n => negb (n =? 0)%Z
  | JStr s => negb (String.eqb s "")
  | JArr _ | JObj _ | JPromise _ => true
  end.

(** Lookup in a list of own properties. *)
Fixpoint assoc {A} (k : string) (props : list (string * A)) : option A :=
  match props with
  | [] => None
  | (k', v) :: rest => if String.eqb k k' then Some v else assoc k rest
  end.

(** [v[k]] for a data property name [k]: a [TypeError] on [null] and
    [undefined], the property or [undefined] on an object, [undefined] on
    everything else (a promise, an array and a primitive have no own data
    property named like a GraphQL field). *)
Definition getProp (v : JsValue) (k : string) : Completion JsValue :=
  match v with
  | JUndefined | JNull => Throw TypeError
  | JObj props => Normal (default JUndefined (assoc k props))
  | _ => Normal JUndefined
  end.

(** [k in v]: a [TypeError] unless [v] is an object. *)
Definition hasProp (k : string) (v : JsValue) : Completion bool :=
  match v with
  | JObj props => Normal (bool_decide (is_Some (assoc k props)))
  | JArr _ | JPromise _ => Normal false
  | _ => Throw TypeError
  end.

(** SameValueZero, the key equality of [Map].  Objects, arrays and promises
    are equal only to themselves; a requested key and the key read off a
    response item are never the same allocation. *)
Definition sameValueZero (a b : JsValue) : bool :=
  match a, b with
  | JUndefined, JUndefined => true
  | JNull, JNull => true
  | JBool x, JBool y => Bool.eqb x y
  | JNum x, JNum y => (x =? y)%Z
  | JStr x, JStr y => String.eqb x y
  | _, _ => false
  end.

(** [Map]: entries in insertion order, one per key. *)
Definition JsMap := list (JsValue * JsValue).

Fixpoint mapSet (k v : JsValue) (m : JsMap) : JsMap :=
  match m with
  | [] => [(k, v)]
  | (k', v') :: rest =>
      if sameValueZero k' k then (k', v) :: rest else (k', v') :: mapSet k v rest
  end.

(** [map.get(key)]: [undefined] when there is no entry. *)
Fixpoint mapGet (k : JsValue) (m : JsMap) : JsValue :=
  match m with
  | [] => JUndefined
  | (k', v) :: rest => if sameValueZero k' k then v else mapGet k rest
  end.

(** [new Map(pairs)]: the pairs are set one after the other. *)
Definition newMap (pairs : list (JsValue * JsValue)) : JsMap :=
  foldl (fun m kv => mapSet kv.1 kv.2 m) [] pairs.

(** The value of the last pair whose key is the given one, [undefined]
    when there is none: what a lookup in [new Map(pairs)] amounts to. *)
Definition lookupLast (k : JsValue) (pairs : list (JsValue * JsValue)) : JsValue :=
  match List.find (fun kv => sameValueZero kv.1 k) (rev pairs) with
  | Some kv => kv.2
  | None => JUndefined
  end.

Definition isObject (v : JsValue) : bool :=
  match v with JObj _ => true | _ => false end.

Definition isPromise (v : JsValue) : bool :=
  match v with JPromise _ => true | _ => false end.

(** [item[k]] of an object, [undefined] elsewhere. *)
Definition propOf (k : string) (item : JsValue) : JsValue :=
  match item with
  | JObj props => default JUndefined (assoc k props)
  | _ => JUndefined
  end.

(** The remapping of a batch: the item that carries the requested key under
    the property [alias], the last one when several do, [undefined] when
    none does. *)
Definition remap (alias : string) (items : list JsValue) (key : JsValue) : JsValue :=
  lookupLast key (map (fun item => (propOf alias item, item)) items).

(** What a consumer that adopts promises (an [await], a [resolve(value)])
    ends with. *)
Definition settle (v : JsValue) : Completion JsValue :=
  match v with
  | JPromise c => c
  | _ => Normal v
  end.

(** [s.split(sep)] for a one-character separator: never empty,
    [''.split('.')] is [['']]. *)
Fixpoint split (sep : ascii) (s : string) : list string :=
  match s with
  | EmptyString => [EmptyString]
  | String c rest =>
      if Ascii.eqb c sep then EmptyString :: split sep rest
      else match split sep rest with
           | [] => [String c EmptyString]
           | seg :: segs => String c seg :: segs
           end
  end.

(** [segs.join(sep)]. *)
Fixpoint join (sep : ascii) (segs : list string) : string :=
  match segs with
  | [] => EmptyString
  | [seg] => seg
  | seg :: rest => String.append seg (String sep (join sep rest))
  end.

Fixpoint contains (c : ascii) (s : string) : bool :=
  match s with
  | EmptyString => false
  | String c' rest => Ascii.eqb c' c || contains c rest
  end.

(** [s.startsWith(p)] and [s.substr(n)]. *)
Fixpoint startsWith (s p : string) : bool :=
  match p, s with
  | EmptyString, _ => true
  | String a p', String b s' => Ascii.eqb b a && startsWith s' p'
  | String _ _, EmptyString => false
  end.

Fixpoint substr (s : string) (n : nat) : string :=
  match n, s with
  | O, _ => s
  | S n', String _ s' => substr s' n'
  | S _, EmptyString => EmptyString
  end.

End Js.
Import Js.

(** ** The query language: the syntax nodes the transformer reads and builds *)

Module Language.

(** A value node.  The rewrite builds [Variable] and [ObjectValue] nodes; the
    values in a caller's own arguments are carried as [OtherValue]. *)
Inductive ValueNode :=
| VariableNode (name : string)
| ObjectValue (fields : list (string * ValueNode))
| OtherValue (source : string).

Record ArgumentNode := Argument {
  argName : string;
  argValue : ValueNode
}.

Inductive SelectionNode :=
| Field (alias : option string) (name : string)
        (arguments : list ArgumentNode) (selectionSet : list SelectionNode)
| FragmentSpread (name : string)
| InlineFragment (typeCondition : option string) (selectionSet : list SelectionNode).

(** An element of [info.fieldNodes]. *)
Record FieldNode := {
  fnAlias : option string;
  fnName : string;
  fnSelectionSet : list SelectionNode
}.

Inductive TypeNode :=
| NamedTypeNode (name : string)
| ListTypeNode (type : TypeNode)
| NonNullTypeNode (type : TypeNode).

(** A type of the schema: a named type under list and non-null wrappers. *)
Inductive GraphQLType :=
| NamedType (name : string)
| GraphQLList (ofType : GraphQLType)
| GraphQLNonNull (ofType : GraphQLType).

Record VariableDefinitionNode := VariableDefinition {
  vdName : string;
  vdType : TypeNode
}.

Record FragmentDefinitionNode := FragmentDefinition {
  fragName : string;
  fragTypeCondition : string;
  fragSelectionSet : list SelectionNode
}.

Inductive OperationType := query | mutation | subscription.

Record OperationDefinitionNode := OperationDefinition {
  opOperation : OperationType;
  opName : option string;
  opVariableDefinitions : list VariableDefinitionNode;
  opSelectionSet : list SelectionNode
}.

Inductive DefinitionNode :=
| DFragment (f : FragmentDefinitionNode)
| DOperation (o : OperationDefinitionNode).

Definition DocumentNode := list DefinitionNode.

(** The key a selection answers under: its alias, else its name. *)
Definition responseKey (sel : SelectionNode) : option string :=
  match sel with
  | Field (Some a) _ _ _ => Some a
  | Field None n _ _ => Some n
  | _ => None
  end.

(** The response keys of the fields of a selection set, and the names
    declared by a list of variable definitions. *)
Definition responseKeys (selections : list SelectionNode) : list string :=
  omap responseKey selections.

Definition declaredNames (definitions : list VariableDefinitionNode) : list string :=
  map vdName definitions.

(** [createTypeNode] ([links.ts], lines 156-176). *)
Fixpoint createTypeNode (type : GraphQLType) : TypeNode :=
  match type with
  | GraphQLList ofType => ListTypeNode (createTypeNode ofType)
  | GraphQLNonNull ofType => NonNullTypeNode (createTypeNode ofType)
  | NamedType name => NamedTypeNode name
  end.

(** [createVariableDefinitionNode] ([links.ts], lines 178-190). *)
Definition createVariableDefinitionNode (varName : string) (type : GraphQLType)
  : VariableDefinitionNode :=
  VariableDefinition varName (createTypeNode type).

(** [createNestedArgumentWithVariableNode] ([links.ts], lines 192-231):
    [parts.shift()] takes the first segment, an empty one throws; the loop
    over [parts.reverse()] wraps the variable reference from the innermost
    segment outwards. *)
Definition createNestedArgumentWithVariableNode (argumentPath variableName : string)
  : Completion ArgumentNode :=
  match split "." argumentPath with
  | [] => Throw ArgumentMustNotBeEmpty
  | argName :: parts =>
      if String.eqb argName "" then Throw ArgumentMustNotBeEmpty
      else
        let value :=
          foldl (fun value part => ObjectValue [(part, value)])
                (VariableNode variableName) (rev parts) in
        Normal (Argument argName value)
  end.

(** The binding the specification writes [{a: {b: $v}}]: the segments
    folded from the right around the variable reference. *)
Definition nestedObject (segments : list string) (variableName : string) : ValueNode :=
  foldr (fun part value => ObjectValue [(part, value)])
        (VariableNode variableName) segments.

(** The first segment of a dotted path. *)
Definition firstSegment (argumentPath : string) : string :=
  hd "" (split "." argumentPath).

(** A type as the schema language allows it: no non-null wrapper directly
    around a non-null wrapper. *)
Fixpoint wellFormedType (type : GraphQLType) : bool :=
  match type with
  | NamedType _ => true
  | GraphQLList ofType => wellFormedType ofType
  | GraphQLNonNull ofType =>
      match ofType with
      | GraphQLNonNull _ => false
      | _ => wellFormedType ofType
      end
  end.

(** A type node as the query language allows it, and as the cast in
    [createTypeNode] asserts: below a non-null node there is a named or a
    list node. *)
Fixpoint validTypeNode (node : TypeNode) : bool :=
  match node with
  | NamedTypeNode _ => true
  | ListTypeNode inner => validTypeNode inner
  | NonNullTypeNode inner =>
      match inner with
      | NonNullTypeNode _ => false
      | _ => validTypeNode inner
      end
  end.

(** A type that is not a non-null wrapper: what [new GraphQLNonNull] of the
    [graphql] package accepts as its argument. *)
Definition nullable (type : GraphQLType) : bool :=
  match type with
  | GraphQLNonNull _ => false
  | _ => true
  end.

(** [new GraphQLNonNull(type)]: the constructor asserts that its argument
    is not itself a non-null type ("Can only create NonNull of a Nullable
    GraphQLType"). *)
Definition newGraphQLNonNull (type : GraphQLType) : Completion GraphQLType :=
  if nullable type then Normal (GraphQLNonNull type) else Throw NonNullOfNonNull.

(** [getNamedType]: all list and non-null wrappers stripped. *)
Fixpoint getNamedType (type : GraphQLType) : string :=
  match type with
  | NamedType name => name
  | GraphQLList ofType | GraphQLNonNull ofType => getNamedType ofType
  end.

End Language.
Import Language.

(** ** Configuration, schema and the collaborators of the link transformer *)

Module Config.

(** [LinkConfig] of [../config/proxy-configuration]: the fields the
    transformer reads.  [batchMode] and [keyField] are optional. *)
Record LinkConfig := {
  linkEndpoint : string;
  linkField : string;
  linkArgument : string;
  linkBatchMode : bool;
  linkKeyField : option string
}.

(** [link.keyField] used as a condition: set and not the empty string. *)
Definition keyFieldSet (link : LinkConfig) : bool :=
  match linkKeyField link with
  | Some k => negb (String.eqb k "")
  | None => false
  end.

(** [link.keyField] used as a property or field name. *)
Definition keyFieldName (link : LinkConfig) : string :=
  default "undefined" (linkKeyField link).

Record EndpointConfig := {
  epName : string;
  epUrl : string;
  epLinks : gmap string LinkConfig
}.

(** What the schema knows of a named type: whether it is an object type,
    and the types of an object type's fields. *)
Inductive TypeKind :=
| ObjectKind | InterfaceKind | UnionKind | ScalarKind | EnumKind | InputObjectKind.

Record GraphQLNamedType := {
  typeName : string;
  typeKind : TypeKind;
  typeFields : gmap string GraphQLType
}.

Definition isObjectType (t : GraphQLNamedType) : bool :=
  match typeKind t with ObjectKind => true | _ => false end.

Record GraphQLSchema := {
  queryType : option string;
  typeMap : gmap string GraphQLNamedType
}.

(** [type instanceof GraphQLObjectType] for a field's type: a wrapper is
    none, a named type is one when the schema declares it so. *)
Definition asObjectType (schema : GraphQLSchema) (type : GraphQLType)
  : option GraphQLNamedType :=
  match type with
  | NamedType n =>
      match typeMap schema !! n with
      | Some t => if isObjectType t then Some t else None
      | None => None
      end
  | _ => None
  end.

(** [GraphQLResolveInfo]: the parts of the resolution context the
    transformer and its collaborators read. *)
Record GraphQLResolveInfo := {
  fieldNodes : list FieldNode;
  infoFragments : list FragmentDefinitionNode;
  infoOperation : OperationDefinitionNode;
  infoVariableValues : gmap string JsValue
}.

(** The result of [getFieldAsQueryParts] ([./field-as-query]). *)
Record QueryParts := {
  fragments : list FragmentDefinitionNode;
  variableDefinitions : list VariableDefinitionNode;
  variableValues : gmap string JsValue;
  selectionSet : list SelectionNode
}.

(** The argument of the [transform] callback of [resolveAsProxy]
    ([./proxy-resolver]). *)
Record ProxyQuery := {
  pqOperation : OperationDefinitionNode;
  pqFragments : list FragmentDefinitionNode;
  pqVariables : gmap string JsValue
}.

(** One call of the backend-execute capability. *)
Record BackendCall := {
  target : string;
  document : DocumentNode;
  callVariables : gmap string JsValue
}.

(** The collaborators that are not part of the embedded files: the transport
    ([execute]: the answer of the backend to a call), the extraction of the
    caller's query from the resolution context ([getFieldAsQueryParts] of
    [./field-as-query], [proxyQuery] inside [resolveAsProxy]), the
    collision-avoiding builders of [./language-utils], [arrayToObject] of
    [../utils], and the naming scheme of [./renaming]. *)
Class Collaborators := {
  execute : BackendCall -> Completion JsValue;
  getFieldAsQueryParts : GraphQLResolveInfo -> QueryParts;
  proxyQuery : GraphQLResolveInfo -> ProxyQuery;
  addVariableDefinitionSafely :
    list VariableDefinitionNode -> string -> GraphQLType ->
    list VariableDefinitionNode * string;
  addFieldSelectionSafely :
    list SelectionNode -> string -> gmap string FragmentDefinitionNode ->
    string * list SelectionNode;
  arrayToObject :
    list FragmentDefinitionNode -> (FragmentDefinitionNode -> string) ->
    gmap string FragmentDefinitionNode;
  getTypePrefix : EndpointConfig -> string;
  splitIntoEndpointAndTypeName :
    string -> list EndpointConfig -> option (string * string)
}.

(** [DataLoader] as the transformer uses it: the batch function is the
    closure [keys => resolveBatch(keys, info)], which differs between
    loaders only in the [info] it captured; [queue] holds the keys passed to
    [load] since the last dispatch, in call order. *)
Record DataLoader := {
  batchInfo : GraphQLResolveInfo;
  queue : list JsValue
}.

(** The mutable state of one [transformField] closure, and the log of the
    backend calls the run under consideration has issued (oldest first).  A
    request context is an object compared by identity: a number stands for
    it.  [keyFieldAlias] is one variable for all batches of the link: what
    the other batches write to it while a batch is suspended in an [await]
    is the parameter [meanwhile] of [awaitWhile] below. *)
Record World := {
  dispatched : list BackendCall;
  keyFieldAlias : option string;
  dataLoaders : gmap nat DataLoader
}.

Definition emptyWorld : World :=
  {| dispatched := []; keyFieldAlias := None; dataLoaders := ∅ |}.

(** Computations over the world that may throw.  The state survives a throw:
    what was dispatched stays dispatched. *)
Definition M (A : Type) : Type := World -> Completion A * World.

Definition ret {A} (a : A) : M A := fun w => (Normal a, w).
Definition throw {A} (e : Error) : M A := fun w => (Throw e, w).
Definition bind {A B} (m : M A) (k : A -> M B) : M B :=
  fun w => match m w with
           | (Normal a, w') => k a w'
           | (Throw e, w') => (Throw e, w')
           end.
Definition lift {A} (c : Completion A) : M A := fun w => (c, w).

(** [list.map(f)] for an [f] with effects, left to right. *)
Fixpoint mapM {A B} (f : A -> M B) (l : list A) : M (list B) :=
  match l with
  | [] => ret []
  | a :: rest =>
      bind (f a) (fun b => bind (mapM f rest) (fun bs => ret (b :: bs)))
  end.

(** Calling an [async] function: it runs up to its first suspension (all
    effects of the embedded functions happen before it) and hands back a
    promise for its completion; the call itself never throws. *)
Definition async (body : M JsValue) : M JsValue :=
  fun w => let (c, w') := body w in (Normal (JPromise c), w').

(** [await v]. *)
Definition await (v : JsValue) : M JsValue := lift (settle v).

Definition logCall (call : BackendCall) (w : World) : World :=
  {| dispatched := dispatched w ++ [call];
     keyFieldAlias := keyFieldAlias w;
     dataLoaders := dataLoaders w |}.

(** The transport is called ([targetEndpoint.query], the execution inside
    [resolveAsProxy]): the call is logged, and the backend's answer is what
    the awaited promise settles to. *)
Definition dispatch `{Collaborators} (call : BackendCall) : M JsValue :=
  fun w => (execute call, logCall call w).

Definition withKeyFieldAlias (alias : string) (w : World) : World :=
  {| dispatched := dispatched w;
     keyFieldAlias := Some alias;
     dataLoaders := dataLoaders w |}.

Definition setKeyFieldAlias (alias : string) : M unit :=
  fun w => (Normal tt, withKeyFieldAlias alias w).

Definition getKeyFieldAlias : M (option string) :=
  fun w => (Normal (keyFieldAlias w), w).

(** While a function is suspended in an [await], the other batches of the
    link run.  Of the state of the closure they write [keyFieldAlias] and
    nothing else, in the key-field branch of [basicResolve] ([part_000],
    line 82).  [meanwhile] is the alias the last of them wrote during the
    suspension, [None] when none of them wrote. *)
Definition interleave (meanwhile : option string) (w : World) : World :=
  match meanwhile with
  | Some alias => withKeyFieldAlias alias w
  | None => w
  end.

(** [await v] in a function that reads the state of the closure after it
    resumes. *)
Definition awaitWhile (meanwhile : option string) (v : JsValue) : M JsValue :=
  fun w => (settle v, interleave meanwhile w).

(** [(<any[]>result).map(...)]: only an array has a [map]. *)
Definition asArray (v : JsValue) : Completion (list JsValue) :=
  match v with
  | JArr items => Normal items
  | _ => Throw TypeError
  end.

End Config.
Import Config.

Declare Scope weaver_scope.
Notation "'do' x <- m ; k" := (bind m (fun x => k))
  (at level 10, x name, m at level 100, k at level 200) : weaver_scope.
Open Scope weaver_scope.

(** ** What [transformField] reads and writes at composition time *)

Module Transformer.

(** The variables a link resolver closes over. *)
Record LinkClosure := {
  link : LinkConfig;
  targetEndpoint : EndpointConfig;
  originalType : GraphQLType
}.

(** [config.resolve]: the resolver the field came with, or the link
    resolver [transformField] installs. *)
Inductive Resolver :=
| DefaultResolver
| LinkResolver (closure : LinkClosure).

Record GraphQLNamedFieldConfig := {
  cfgName : string;
  cfgType : GraphQLType;
  cfgResolve : Resolver
}.

Record FieldTransformationContext := {
  oldOuterType : string;
  mapType : GraphQLType -> GraphQLType
}.

(** [new Map(endpoints.map(endpoint => [endpoint.name, endpoint]))]: a later
    endpoint of the same name replaces an earlier one. *)
Definition endpointMap (endpoints : list EndpointConfig) : gmap string EndpointConfig :=
  foldl (fun m endpoint => <[epName endpoint := endpoint]> m) ∅ endpoints.

(** [schema.getQueryType().getFields()[name].type]; a missing query type
    or field is a [TypeError]. *)
Definition queryFieldType (schema : GraphQLSchema) (name : string)
  : Completion GraphQLType :=
  match queryType schema ≫= (fun q => typeMap schema !! q) with
  | None => Throw TypeError
  | Some q =>
      match typeFields q !! name with
      | None => Throw TypeError
      | Some type => Normal type
      end
  end.

(** The part of [transformField] after the type name is split, the same in
    both files (lines 24-45 and 120-124 of [links.ts], lines 43-66 and
    142-146 of [part_000]): the checks, the rewrite of [config.type] and the
    installation of the resolver.  [link.argument] is not read. *)
Definition installLink (endpoints : list EndpointConfig) (schema : GraphQLSchema)
    (config : GraphQLNamedFieldConfig) (context : FieldTransformationContext)
    (endpointName originalTypeName : string)
  : Completion GraphQLNamedFieldConfig :=
  match endpointMap endpoints !! endpointName with
  | None => Throw (EndpointNotFound endpointName)
  | Some endpoint =>
      let linkName := String.append originalTypeName (String.append "." (cfgName config)) in
      match epLinks endpoint !! linkName with
      | None => Normal config
      | Some link =>
          match endpointMap endpoints !! linkEndpoint link with
          | None => Throw (LinkToNonexistentEndpoint linkName (linkEndpoint link))
          | Some targetEndpoint =>
              match queryFieldType schema (epName targetEndpoint) with
              | Throw e => Throw e
              | Normal type =>
                  match asObjectType schema type with
                  | None => Throw (ExpectedObjectType (epName targetEndpoint))
                  | Some endpointQueryType =>
                      match typeFields endpointQueryType !! linkField link with
                      | None => Throw TypeError
                      | Some fieldType =>
                          Normal
                            {| cfgName := cfgName config;
                               cfgType := NamedType (getNamedType (mapType context fieldType));
                               cfgResolve :=
                                 LinkResolver
                                   {| link := link;
                                      targetEndpoint := targetEndpoint;
                                      originalType := cfgType config |} |}
                      end
                  end
              end
          end
      end
  end.

(** What [config.resolve] hands back: a value, or the promise of
    [dataLoader.load], which is the [slot]-th key queued on the loader of
    [context]. *)
Inductive Resolved :=
| Returned (value : JsValue)
| Loading (context : nat) (slot : nat).

Definition getLoader (context : nat) : M (option DataLoader) :=
  fun w => (Normal (dataLoaders w !! context), w).

Definition withLoader (context : nat) (dataLoader : DataLoader) (w : World) : World :=
  {| dispatched := dispatched w;
     keyFieldAlias := keyFieldAlias w;
     dataLoaders := <[context := dataLoader]> (dataLoaders w) |}.

Definition setLoader (context : nat) (dataLoader : DataLoader) : M unit :=
  fun w => (Normal tt, withLoader context dataLoader w).

(** Modelled from the spec: the [dataloader] package is not under src/.
    Section 4.4: [load(key)] returns the future of the key's result and
    queues the key; the calls of one tick are coalesced into one call of the
    batch function with the full ordered list of keys, duplicates included,
    and the results are distributed back positionally. *)
Definition load (context : nat) (value : JsValue) : M Resolved :=
  do found <- getLoader context;
  match found with
  | None => throw TypeError
  | Some dataLoader =>
      do _ <- setLoader context
                {| batchInfo := batchInfo dataLoader;
                   queue := queue dataLoader ++ [value] |};
      ret (Loading context (length (queue dataLoader)))
  end.

(** [fieldNode.alias ? fieldNode.alias.value : fieldNode.name.value]. *)
Definition responseAlias (fieldNode : FieldNode) : string :=
  match fnAlias fieldNode with
  | Some alias => alias
  | None => fnName fieldNode
  end.

(** [config.resolve] (lines 124-139 of [links.ts], lines 146-165 of
    [part_000]; the two differ in a comment only).  The loader is created
    with the [info] of the call that finds none. *)
Definition resolve (source args : JsValue) (context : nat) (info : GraphQLResolveInfo)
  : M Resolved :=
  match fieldNodes info with
  | [] => throw TypeError
  | fieldNode :: _ =>
      let alias := responseAlias fieldNode in
      do value <- lift (getProp source alias);
      if negb (truthy value) then ret (Returned value)
      else
        do found <- getLoader context;
        do _ <- match found with
                | Some _ => ret tt
                | None => setLoader context {| batchInfo := info; queue := [] |}
                end;
        load context value
  end.

(** Modelled from the spec: the dispatch of a loader's batch (section 4.4),
    the [dataloader] package not being under src/.  The queue is emptied,
    the batch function runs on the queued keys with the [info] the loader
    was created with, and each caller's future settles to the element at its
    position. *)
Definition dispatchLoader
    (resolveBatch : list JsValue -> GraphQLResolveInfo -> M JsValue)
    (context : nat) : M (list (Completion JsValue)) :=
  do found <- getLoader context;
  match found with
  | None => ret []
  | Some dataLoader =>
      do _ <- setLoader context {| batchInfo := batchInfo dataLoader; queue := [] |};
      do result <- resolveBatch (queue dataLoader) (batchInfo dataLoader);
      do values <- lift (asArray result);
      ret (map settle values)
  end.

(** The resolver invocations of one request context, in call order, each
    with its parent object and its [info]; every invocation completes on its
    own. *)
Fixpoint resolveAll (context : nat) (calls : list (JsValue * GraphQLResolveInfo))
    (w : World) : list (Completion Resolved) * World :=
  match calls with
  | [] => ([], w)
  | (source, info) :: rest =>
      let (r, w1) := resolve source JUndefined context info w in
      let (rs, w2) := resolveAll context rest w1 in
      (r :: rs, w2)
  end.

(** The link value an invocation hands to its loader: the value read off
    the parent object when it is truthy. *)
Definition linkValue (source : JsValue) (info : GraphQLResolveInfo) : option JsValue :=
  match fieldNodes info with
  | [] => None
  | fieldNode :: _ =>
      match getProp source (responseAlias fieldNode) with
      | Normal value => if truthy value then Some value else None
      | Throw _ => None
      end
  end.

(** The link values of the invocations that reach a loader, in call order,
    and the [info] of the first such invocation. *)
Definition loadedKeys (calls : list (JsValue * GraphQLResolveInfo)) : list JsValue :=
  omap (fun call => linkValue call.1 call.2) calls.

Definition firstLoadInfo (calls : list (JsValue * GraphQLResolveInfo))
  : option GraphQLResolveInfo :=
  head (omap (fun call => match linkValue call.1 call.2 with
                          | Some _ => Some call.2
                          | None => None
                          end) calls).

End Transformer.
Import Transformer.

(** ** [src/src/graphql/links.ts]: [SchemaLinkTransformer] *)

Module LinksTs.

Section WithCollaborators.
Context `{Collaborators}.

(** [splitTypeName] (lines 142-153): the first endpoint, in configuration
    order, whose prefix starts the merged name. *)
Fixpoint splitTypeName (endpoints : list EndpointConfig) (mergedName : string)
  : option (string * string) :=
  match endpoints with
  | [] => None
  | endpoint :: rest =>
      let prefix := getTypePrefix endpoint in
      if startsWith mergedName prefix
      then Some (epName endpoint, substr mergedName (String.length prefix))
      else splitTypeName rest mergedName
  end.

(** [transformField] (lines 18-140), at composition time. *)
Definition transformField (endpoints : list EndpointConfig) (schema : GraphQLSchema)
    (config : GraphQLNamedFieldConfig) (context : FieldTransformationContext)
  : Completion GraphQLNamedFieldConfig :=
  match splitTypeName endpoints (oldOuterType context) with
  | None => Normal config
  | Some (endpointName, originalTypeName) =>
      installLink endpoints schema config context endpointName originalTypeName
  end.

Definition varName : string := "param".

(** The type of the variable (line 62): with [batchMode] the original type
    is wrapped by [new GraphQLNonNull] without a look at it, which throws
    for a field whose type is non-null already. *)
Definition varType (cl : LinkClosure) : Completion GraphQLType :=
  if linkBatchMode (link cl)
  then andThen (newGraphQLNonNull (originalType cl))
         (fun item => newGraphQLNonNull (GraphQLList item))
  else Normal (originalType cl).

(** The [transform] callback handed to [resolveAsProxy] (lines 54-98).  The
    object literal is evaluated in source order: the variable definition
    with its type first, the nested argument after it. *)
Definition transform (cl : LinkClosure) (value : JsValue) (q : ProxyQuery)
  : Completion ProxyQuery :=
  let operation := pqOperation q in
  match varType cl with
  | Throw e => Throw e
  | Normal type =>
  match createNestedArgumentWithVariableNode (linkArgument (link cl)) varName with
  | Throw e => Throw e
  | Normal argument =>
      Normal
        {| pqFragments := pqFragments q;
           pqOperation :=
             {| opOperation := query;
                opName := opName operation;
                opVariableDefinitions :=
                  opVariableDefinitions operation
                  ++ [createVariableDefinitionNode varName type];
                opSelectionSet :=
                  [Field None (linkField (link cl)) [argument]
                     (opSelectionSet operation
                      ++ (if keyFieldSet (link cl)
                          then [Field None (keyFieldName (link cl)) [] []]
                          else []))] |};
           pqVariables := <[varName := value]> (pqVariables q) |}
  end
  end.

(** Modelled from the spec: [resolveAsProxy] of [./proxy-resolver] is not
    under src/.  It is the "execute(query, variables) -> result" capability
    of section 1 for the caller's own query: the operation, fragments and
    variables of [info] are rewritten by [transform] and the result is
    executed once against [url]. *)
Definition resolveAsProxy (info : GraphQLResolveInfo) (url : string)
    (transform : ProxyQuery -> Completion ProxyQuery) : M JsValue :=
  do q <- lift (transform (proxyQuery info));
  dispatch
    {| target := url;
       document := map DFragment (pqFragments q) ++ [DOperation (pqOperation q)];
       callVariables := pqVariables q |}.

(** [basicResolve] (lines 48-101). *)
Definition basicResolve (cl : LinkClosure) (value : JsValue) (info : GraphQLResolveInfo)
  : M JsValue :=
  async (
    do obj <- resolveAsProxy info (epUrl (targetEndpoint cl)) (transform cl value);
    lift (getProp obj (linkField (link cl)))).

(** [resolveBatch] (lines 103-118).  Without [batchMode], [result] is the
    array of the promises [basicResolve] returned: [await] of an array
    leaves it as it is.  After the [await] only [link] and [keys] are read,
    which no other batch changes. *)
Definition resolveBatch (cl : LinkClosure) (keys : list JsValue) (info : GraphQLResolveInfo)
  : M JsValue :=
  do result <-
    (if linkBatchMode (link cl)
     then do promise <- basicResolve cl (JArr keys) info; await promise
     else do promises <- mapM (fun key => basicResolve cl key info) keys;
          await (JArr promises));
  if negb (keyFieldSet (link cl)) then ret result
  else
    do items <- lift (asArray result);
    do pairs <- mapM (fun item =>
                        do k <- lift (getProp item (keyFieldName (link cl)));
                        ret (k, item)) items;
    let map := newMap pairs in
    ret (JArr (List.map (fun key => mapGet key map) keys)).

End WithCollaborators.

End LinksTs.

(** ** [src/unnamed/part_000]: [SchemaLinkTransformer] over [./language-utils] *)

Module Part000.

Section WithCollaborators.
Context `{Collaborators}.

(** [getNonNullType] (lines 16-21). *)
Definition getNonNullType (type : GraphQLType) : GraphQLType :=
  match type with
  | GraphQLNonNull _ => type
  | _ => GraphQLNonNull type
  end.

(** [splitTypeName] (lines 168-170). *)
Definition splitTypeName (endpoints : list EndpointConfig) (mergedName : string)
  : option (string * string) :=
  splitIntoEndpointAndTypeName mergedName endpoints.

(** [transformField] (lines 37-166), at composition time. *)
Definition transformField (endpoints : list EndpointConfig) (schema : GraphQLSchema)
    (config : GraphQLNamedFieldConfig) (context : FieldTransformationContext)
  : Completion GraphQLNamedFieldConfig :=
  match splitTypeName endpoints (oldOuterType context) with
  | None => Normal config
  | Some (endpointName, typeName) =>
      installLink endpoints schema config context endpointName typeName
  end.

(** [link.argument.split('.').pop()!]. *)
Definition varNameBase (cl : LinkClosure) : string :=
  List.last (split "." (linkArgument (link cl))) "undefined".

(** [varType] (line 72). *)
Definition varType (cl : LinkClosure) : GraphQLType :=
  if linkBatchMode (link cl)
  then GraphQLNonNull (GraphQLList (getNonNullType (originalType cl)))
  else originalType cl.

(** The call of [addVariableDefinitionSafely] (lines 74-75): the extended
    variable definitions and the chosen variable name. *)
Definition extendedVariables (cl : LinkClosure) (info : GraphQLResolveInfo)
  : list VariableDefinitionNode * string :=
  addVariableDefinitionSafely
    (variableDefinitions (getFieldAsQueryParts info)) (varNameBase cl) (varType cl).

(** The call of [addFieldSelectionSafely] (lines 80-81): the chosen alias
    and the extended selection set. *)
Definition extendedSelection (cl : LinkClosure) (info : GraphQLResolveInfo)
  : string * list SelectionNode :=
  let parts := getFieldAsQueryParts info in
  addFieldSelectionSafely (selectionSet parts) (keyFieldName (link cl))
    (arrayToObject (fragments parts) fragName).

(** [document] and [query] (lines 86-120), as handed to
    [targetEndpoint.query]. *)
Definition linkQuery (cl : LinkClosure) (info : GraphQLResolveInfo)
    (extVariableDefinitions : list VariableDefinitionNode) (varName : string)
    (argument : ArgumentNode) (extSelectionSet : list SelectionNode)
    (value : JsValue) : BackendCall :=
  let parts := getFieldAsQueryParts info in
  {| target := epUrl (targetEndpoint cl);
     document :=
       map DFragment (fragments parts)
       ++ [DOperation
             {| opOperation := query;
                opName := None;
                opVariableDefinitions := extVariableDefinitions;
                opSelectionSet :=
                  [Field None (linkField (link cl)) [argument] extSelectionSet] |}];
     callVariables := <[varName := value]> (variableValues parts) |}.

(** [basicResolve] (lines 68-123).  [createNestedArgumentWithVariableNode]
    is the one of [links.ts]. *)
Definition basicResolve (cl : LinkClosure) (value : JsValue) (info : GraphQLResolveInfo)
  : M JsValue :=
  async (
    let parts := getFieldAsQueryParts info in
    let '(extVariableDefinitions, varName) := extendedVariables cl info in
    do extSelectionSet <-
      (if linkBatchMode (link cl) && keyFieldSet (link cl)
       then
         let '(alias, newSelectionSet) := extendedSelection cl info in
         do _ <- setKeyFieldAlias alias;
         ret newSelectionSet
       else ret (selectionSet parts));
    do argument <-
      lift (createNestedArgumentWithVariableNode (linkArgument (link cl)) varName);
    let query :=
      linkQuery cl info extVariableDefinitions varName argument extSelectionSet value in
    do obj <- dispatch query;
    lift (getProp obj (linkField (link cl)))).

(** [resolveBatch] (lines 125-140).  [keyFieldAlias] is written by
    [basicResolve] before the [await] and read after it (line 138):
    [meanwhile] is what the other batches of the link wrote to it in
    between. *)
Definition resolveBatch (meanwhile : option string) (cl : LinkClosure)
    (keys : list JsValue) (info : GraphQLResolveInfo) : M JsValue :=
  do result <-
    (if linkBatchMode (link cl)
     then do promise <- basicResolve cl (JArr keys) info; awaitWhile meanwhile promise
     else do promises <- mapM (fun key => basicResolve cl key info) keys;
          awaitWhile meanwhile (JArr promises));
  if negb (linkBatchMode (link cl)) || negb (keyFieldSet (link cl)) then ret result
  else
    do items <- lift (asArray result);
    do alias <- getKeyFieldAlias;
    do pairs <- mapM (fun item =>
                        do k <- lift (getProp item (default "undefined" alias));
                        ret (k, item)) items;
    let map := newMap pairs in
    ret (JArr (List.map (fun key => mapGet key map) keys)).

End WithCollaborators.

End Part000.

(** ** [TypeResolversTransformer] (second part of [links.ts], lines 231-266) *)

Module TypeResolvers.

(** [GraphQLObjectTypeConfig]: the name and the optional [isTypeOf] check. *)
Record GraphQLObjectTypeConfig := {
  otcName : string;
  isTypeOf : option (JsValue -> bool)
}.

(** The configuration of an interface or union type. *)
Record AbstractTypeConfig := {
  atcName : string;
  atcResolveType : option (JsValue -> Completion GraphQLNamedType)
}.

(** [SchemaTransformationContext] of [./schema-transformer]: the lookup of a
    type of the target schema by name. *)
Record SchemaTransformationContext := {
  findType : JsValue -> option GraphQLNamedType
}.

(** [transformObjectType] (lines 239-241). *)
Definition transformObjectType (config : GraphQLObjectTypeConfig)
  : GraphQLObjectTypeConfig :=
  {| otcName := otcName config; isTypeOf := None |}.

(** The resolver [transformAbstractType] installs (lines 247-264). *)
Definition resolveType (name : string) (context : SchemaTransformationContext)
    (obj : JsValue) : Completion GraphQLNamedType :=
  match hasProp "__typename" obj with
  | Throw e => Throw e
  | Normal false => Throw (TypenameMissing name)
  | Normal true =>
      match getProp obj "__typename" with
      | Throw e => Throw e
      | Normal typename =>
          match findType context typename with
          | None => Throw (NoTypeWithThatName name)
          | Some type =>
              if isObjectType type then Normal type
              else Throw (NotAnObjectType name)
          end
      end
  end.

(** [transformAbstractType] (lines 246-265). *)
Definition transformAbstractType (config : AbstractTypeConfig)
    (context : SchemaTransformationContext) : AbstractTypeConfig :=
  {| atcName := atcName config;
     atcResolveType := Some (resolveType (atcName config) context) |}.

Definition transformInterfaceType := transformAbstractType.
Definition transformUnionType := transformAbstractType.

(** The discriminator is present: [obj] is an object with an own
    [__typename] property. *)
Definition hasTypename (obj : JsValue) : bool :=
  match obj with
  | JObj props => bool_decide (is_Some (assoc "__typename" props))
  | _ => false
  end.

(** [obj.__typename] where it is present, [undefined] elsewhere. *)
Definition typenameOf (obj : JsValue) : JsValue :=
  match obj with
  | JObj props => default JUndefined (assoc "__typename" props)
  | _ => JUndefined
  end.

End TypeResolvers.

(** ** [src/src/graphql/schema-merger.ts] *)

Module SchemaMerger.

Section Merger.
(** The types, resolvers and directives of the source schemas are handed
    through as they are. *)
Context {GraphQLObjectType GraphQLFieldResolver GraphQLDirective : Type}.
Context (isNativeDirective : GraphQLDirective -> bool).
Context (specifiedDirectives : list GraphQLDirective).

(** A source [GraphQLSchema], by its getters. *)
Record SourceSchema := {
  getQueryType : option GraphQLObjectType;
  getMutationType : option GraphQLObjectType;
  getSubscriptionType : option GraphQLObjectType;
  getDirectives : list GraphQLDirective
}.

Record NamedSchema := {
  namespace : string;
  schema : SourceSchema;
  queryResolver : option GraphQLFieldResolver;
  mutationResolver : option GraphQLFieldResolver;
  subscriptionResolver : option GraphQLFieldResolver
}.

Record FieldConfig := {
  fcNamespace : string;
  fcType : option GraphQLObjectType;
  fcResolver : option GraphQLFieldResolver
}.

(** An entry of a [GraphQLFieldConfigMap]. *)
Record RootField := {
  rfType : GraphQLObjectType;
  rfResolve : option GraphQLFieldResolver
}.

(** A root type built by [new GraphQLObjectType({name, fields})]; [fields]
    is the plain object used as a map from namespace to field
    configuration, by its own properties. *)
Record RootType := {
  rootName : string;
  rootFields : gmap string RootField
}.

(** [fields[key] = field] on the object literal [fields]: an assignment to
    [__proto__] reaches the accessor inherited from [Object.prototype],
    which replaces the prototype of [fields] and adds no own property; any
    other key becomes or replaces an own property. *)
Definition setField (fields : gmap string RootField) (key : string) (field : RootField)
  : gmap string RootField :=
  if String.eqb key "__proto__" then fields else <[key := field]> fields.

(** The loop of [createRootFieldMaybe] (lines 57-65). *)
Definition collectFields (types : list FieldConfig) : gmap string RootField :=
  foldl (fun fields fc =>
           match fcType fc with
           | None => fields
           | Some type =>
               setField fields (fcNamespace fc)
                 {| rfType := type; rfResolve := fcResolver fc |}
           end) ∅ types.

(** [createRootFieldMaybe] (lines 55-74). *)
Definition createRootFieldMaybe (name : string) (types : list FieldConfig)
  : option RootType :=
  let fields := collectFields types in
  if decide (size fields = 0) then None
  else Some {| rootName := name; rootFields := fields |}.

(** The configuration handed to [new GraphQLSchema], and the schema built
    from it, which answers its getters with the configuration. *)
Record MergedSchema := {
  msQuery : option RootType;
  msMutation : option RootType;
  msSubscription : option RootType;
  msDirectives : list GraphQLDirective
}.

(** The assertions of [new GraphQLSchema] that follow the one on the query
    type (on the names of fields and types, one type per name, ...): the
    error they raise on a configuration, none when they pass.  They concern
    the types of the source schemas, which are handed through as they
    are. *)
Context (schemaAssertions : MergedSchema -> option Error).

(** [new GraphQLSchema(config)] of the [graphql] package: it asserts first
    that [config.query] is an object type ("Schema query must be Object
    Type but got: undefined"). *)
Definition newGraphQLSchema (config : MergedSchema) : Completion MergedSchema :=
  match msQuery config with
  | None => Throw SchemaQueryMustBeObjectType
  | Some _ =>
      match schemaAssertions config with
      | Some e => Throw e
      | None => Normal config
      end
  end.

(** [mergeSchemas] (lines 23-53). *)
Definition mergeSchemas (schemas : list NamedSchema) : Completion MergedSchema :=
  let query :=
    createRootFieldMaybe "Query"
      (map (fun s => {| fcNamespace := namespace s;
                        fcType := getQueryType (schema s);
                        fcResolver := queryResolver s |}) schemas) in
  let mutation :=
    createRootFieldMaybe "Mutation"
      (map (fun s => {| fcNamespace := namespace s;
                        fcType := getMutationType (schema s);
                        fcResolver := mutationResolver s |}) schemas) in
  let subscription :=
    createRootFieldMaybe "Subscription"
      (map (fun s => {| fcNamespace := namespace s;
                        fcType := getSubscriptionType (schema s);
                        fcResolver := subscriptionResolver s |}) schemas) in
  let directives :=
    foldl (fun a b => a ++ b) []
      (map (fun s => filter (fun d => isNativeDirective d = false)
                       (getDirectives (schema s))) schemas)
    ++ specifiedDirectives in
  newGraphQLSchema
    {| msQuery := query;
       msMutation := mutation;
       msSubscription := subscription;
       msDirectives := directives |}.

(** A configuration contributes a field: the field has its type and its
    resolver. *)
Definition contributes (fc : FieldConfig) (f : RootField) : Prop :=
  fcType fc = Some (rfType f) /\ fcResolver fc = rfResolve f.

(** The fields of a root type, none when the root type is absent. *)
Definition fieldsOf (root : option RootType) : gmap string RootField :=
  match root with
  | Some t => rootFields t
  | None => ∅
  end.

End Merger.

End SchemaMerger.

(** ** The namespace router in the words of the specification *)

Module NamespaceRouter.

Section WithCollaborators.
Context `{Collaborators}.

(** [prefixOf(backend)]. *)
Definition prefixOf (endpoint : EndpointConfig) : string := getTypePrefix endpoint.

(** The endpoint with the longest prefix that starts the merged name, the
    earlier one among prefixes of equal length. *)
Fixpoint longestPrefixMatch (endpoints : list EndpointConfig) (mergedName : string)
    (best : option EndpointConfig) : option EndpointConfig :=
  match endpoints with
  | [] => best
  | endpoint :: rest =>
      let best' :=
        if startsWith mergedName (prefixOf endpoint)
        then match best with
             | None => Some endpoint
             | Some b =>
                 if Nat.ltb (String.length (prefixOf b)) (String.length (prefixOf endpoint))
                 then Some endpoint else Some b
             end
        else best in
      longestPrefixMatch rest mergedName best'
  end.

(** [route(mergedTypeName)]: "deterministic longest-prefix match over all
    configured backend prefixes", none when no prefix matches. *)
Definition route (endpoints : list EndpointConfig) (mergedName : string)
  : option (string * string) :=
  match longestPrefixMatch endpoints mergedName None with
  | Some endpoint =>
      Some (epName endpoint, substr mergedName (String.length (prefixOf endpoint)))
  | None => None
  end.

(** The first endpoint, in configuration order, whose prefix starts the
    merged name. *)
Definition firstMatch (endpoints : list EndpointConfig) (mergedName : string)
  : option EndpointConfig :=
  List.find (fun e => startsWith mergedName (getTypePrefix e)) endpoints.

(** No backend's prefix is ambiguous as a prefix of another backend's
    prefix. *)
Definition unambiguousPrefixes (endpoints : list EndpointConfig) : Prop :=
  forall e1 e2, e1 ∈ endpoints -> e2 ∈ endpoints ->
    startsWith (prefixOf e2) (prefixOf e1) = true -> e1 = e2.

End WithCollaborators.

End NamespaceRouter.
Import NamespaceRouter.

(** ** Vocabulary for the statements about dispatches *)

Module Dispatches.

Section WithCollaborators.
Context `{Collaborators}.

(** The promise [basicResolve] hands back for a call: it settles to the
    link field of the backend's answer. *)
Definition answerOf (cl : LinkClosure) (call : BackendCall) : JsValue :=
  JPromise (andThen (execute call) (fun obj => getProp obj (linkField (link cl)))).

(** A call goes to the link's target endpoint and binds a value to the
    variable [part_000] chose for it. *)
Definition carries (cl : LinkClosure) (info : GraphQLResolveInfo)
    (value : JsValue) (call : BackendCall) : Prop :=
  target call = epUrl (targetEndpoint cl)
  /\ callVariables call !! (Part000.extendedVariables cl info).2 = Some value.

(** The call [basicResolve] of [links.ts] issues for a link value when the
    rewrite completes: the caller's query of [info], rewritten by
    [transform] (lines 54-98), goes to the target endpoint. *)
Definition proxiedQuery (cl : LinkClosure) (info : GraphQLResolveInfo)
    (argument : ArgumentNode) (value : JsValue) : BackendCall :=
  let q := proxyQuery info in
  {| target := epUrl (targetEndpoint cl);
     document :=
       map DFragment (pqFragments q)
       ++ [DOperation
             {| opOperation := query;
                opName := opName (pqOperation q);
                opVariableDefinitions :=
                  opVariableDefinitions (pqOperation q)
                  ++ [createVariableDefinitionNode LinksTs.varName
                        (if linkBatchMode (link cl)
                         then GraphQLNonNull
                                (GraphQLList (GraphQLNonNull (originalType cl)))
                         else originalType cl)];
                opSelectionSet :=
                  [Field None (linkField (link cl)) [argument]
                     (opSelectionSet (pqOperation q)
                      ++ (if keyFieldSet (link cl)
                          then [Field None (keyFieldName (link cl)) [] []]
                          else []))] |}];
     callVariables := <[LinksTs.varName := value]> (pqVariables q) |}.

(** The call [basicResolve] of [part_000] issues for a link value, once
    the nested argument is built: [linkQuery] on the names and selections
    chosen for [info]. *)
Definition builtQuery (cl : LinkClosure) (info : GraphQLResolveInfo)
    (argument : ArgumentNode) (value : JsValue) : BackendCall :=
  let chosen := Part000.extendedVariables cl info in
  Part000.linkQuery cl info chosen.1 chosen.2 argument
    (if linkBatchMode (link cl) && keyFieldSet (link cl)
     then (Part000.extendedSelection cl info).2
     else selectionSet (getFieldAsQueryParts info)) value.

(** The values [resolveBatch] hands to [basicResolve] for a list of keys:
    the list as a whole with [batchMode], key after key without. *)
Definition linkValues (cl : LinkClosure) (keys : list JsValue) : list JsValue :=
  if linkBatchMode (link cl) then [JArr keys] else keys.

End WithCollaborators.

(** The world after further calls were dispatched. *)
Definition logCalls (calls : list BackendCall) (w : World) : World :=
  {| dispatched := dispatched w ++ calls;
     keyFieldAlias := keyFieldAlias w;
     dataLoaders := dataLoaders w |}.

(** The keys queued on the loader of a context, none when it has no
    loader. *)
Definition pending (context : nat) (w : World) : list JsValue :=
  match dataLoaders w !! context with
  | Some dataLoader => queue dataLoader
  | None => []
  end.

End Dispatches.
Import Dispatches.

(** ** A sample deployment: backends [posts] and [users]

    Closed instances of the collaborators and of a configuration, on which
    the definitions above can be run. *)

Module Sample.

(** The rows of the [users] backend. *)
Definition usersTable : list (list (string * JsValue)) :=
  [ [("id", JNum 1); ("name", JStr "Ada")];
    [("id", JNum 2); ("name", JStr "Bob")];
    [("id", JNum 3); ("name", JStr "Cy")] ].

(** A row seen through a selection set: each field under its response key. *)
Definition selectRow (selections : list SelectionNode) (row : list (string * JsValue))
  : JsValue :=
  JObj (omap (fun sel =>
                match sel with
                | Field alias name _ _ =>
                    Some (default name alias, default JNull (assoc name row))
                | _ => None
                end) selections).

Fixpoint innermostVariable (value : ValueNode) : option string :=
  match value with
  | VariableNode name => Some name
  | ObjectValue [(_, inner)] => innermostVariable inner
  | _ => None
  end.

Definition rowHasId (key : JsValue) (row : list (string * JsValue)) : bool :=
  sameValueZero (default JUndefined (assoc "id" row)) key.

(** The answer of the [users] backend to a root field with one argument
    bound to a variable: for a list of ids the matching rows in table order
    (whatever the order of the ids, unknown ids left out), for one id the
    matching row or [null]. *)
Definition answer (selections : list SelectionNode) (variables : gmap string JsValue)
  : Completion JsValue :=
  match selections with
  | [Field _ name [Argument _ value] inner] =>
      match innermostVariable value ≫= (fun v => variables !! v) with
      | Some (JArr keys) =>
          Normal (JObj [(name,
            JArr (map (selectRow inner)
                    (List.filter (fun row => existsb (fun key => rowHasId key row) keys)
                       usersTable)))])
      | Some key =>
          Normal (JObj [(name,
            match List.find (rowHasId key) usersTable with
            | Some row => selectRow inner row
            | None => JNull
            end)])
      | None => Throw (BackendFailure "unbound variable")
      end
  | _ => Throw (BackendFailure "unsupported query")
  end.

Definition sampleExecute (call : BackendCall) : Completion JsValue :=
  match List.last (document call) (DFragment (FragmentDefinition "" "" [])) with
  | DOperation operation => answer (opSelectionSet operation) (callVariables call)
  | DFragment _ => Throw (BackendFailure "no operation")
  end.

Definition firstSelectionSet (info : GraphQLResolveInfo) : list SelectionNode :=
  match fieldNodes info with
  | fieldNode :: _ => fnSelectionSet fieldNode
  | [] => []
  end.

Definition sampleQueryParts (info : GraphQLResolveInfo) : QueryParts :=
  {| fragments := infoFragments info;
     variableDefinitions := opVariableDefinitions (infoOperation info);
     variableValues := infoVariableValues info;
     selectionSet := firstSelectionSet info |}.

Definition sampleProxyQuery (info : GraphQLResolveInfo) : ProxyQuery :=
  {| pqOperation :=
       {| opOperation := opOperation (infoOperation info);
          opName := opName (infoOperation info);
          opVariableDefinitions := opVariableDefinitions (infoOperation info);
          opSelectionSet := firstSelectionSet info |};
     pqFragments := infoFragments info;
     pqVariables := infoVariableValues info |}.

Definition declares (name : string) (definitions : list VariableDefinitionNode) : bool :=
  existsb (fun d => String.eqb (vdName d) name) definitions.

Definition answersUnder (key : string) (selections : list SelectionNode) : bool :=
  existsb (fun sel => bool_decide (responseKey sel = Some key)) selections.

Definition sampleAddVariable (definitions : list VariableDefinitionNode) (name : string)
    (type : GraphQLType) : list VariableDefinitionNode * string :=
  let chosen := if declares name definitions then String.append name "2" else name in
  (definitions ++ [createVariableDefinitionNode chosen type], chosen).

Definition sampleAddField (selections : list SelectionNode) (field : string)
    (fragments : gmap string FragmentDefinitionNode) : string * list SelectionNode :=
  if answersUnder field selections
  then let alias := String.append field "0" in
       (alias, selections ++ [Field (Some alias) field [] []])
  else (field, selections ++ [Field None field [] []]).

Definition samplePrefix (endpoint : EndpointConfig) : string :=
  String.append (epName endpoint) "_".

Definition sampleSplit (mergedName : string) (endpoints : list EndpointConfig)
  : option (string * string) :=
  match List.find (fun e => startsWith mergedName (samplePrefix e)) endpoints with
  | Some e => Some (epName e, substr mergedName (String.length (samplePrefix e)))
  | None => None
  end.

Definition sampleCollaborators : Collaborators :=
  {| execute := sampleExecute;
     getFieldAsQueryParts := sampleQueryParts;
     proxyQuery := sampleProxyQuery;
     addVariableDefinitionSafely := sampleAddVariable;
     addFieldSelectionSafely := sampleAddField;
     arrayToObject := fun l f => list_to_map (map (fun x => (f x, x)) l);
     getTypePrefix := samplePrefix;
     splitIntoEndpointAndTypeName := sampleSplit |}.

(** The link [Post.author] of the [posts] backend to a root field of the
    [users] backend. *)
Definition authorLink (field argument : string) (batchMode : bool)
    (keyField : option string) : LinkConfig :=
  {| linkEndpoint := "users";
     linkField := field;
     linkArgument := argument;
     linkBatchMode := batchMode;
     linkKeyField := keyField |}.

Definition usersEndpoint : EndpointConfig :=
  {| epName := "users"; epUrl := "http://users/graphql"; epLinks := ∅ |}.

Definition postsEndpoint (link : LinkConfig) : EndpointConfig :=
  {| epName := "posts"; epUrl := "http://posts/graphql";
     epLinks := {["Post.author" := link]} |}.

Definition objectType (name : string) (fields : list (string * GraphQLType))
  : GraphQLNamedType :=
  {| typeName := name; typeKind := ObjectKind; typeFields := list_to_map fields |}.

(** The merged schema: [Query.posts], [Query.users] and the root fields of
    the [users] backend. *)
Definition mergedSchema : GraphQLSchema :=
  {| queryType := Some "Query";
     typeMap :=
       list_to_map
         [ ("Query",
            objectType "Query"
              [("posts", NamedType "posts_Query"); ("users", NamedType "users_Query")]);
           ("users_Query",
            objectType "users_Query"
              [("user", NamedType "users_User");
               ("usersByIds",
                GraphQLNonNull (GraphQLList (GraphQLNonNull (NamedType "users_User"))))]);
           ("users_User",
            objectType "users_User"
              [("id", GraphQLNonNull (NamedType "Int")); ("name", NamedType "String")]) ] |}.

(** The field [posts_Post.author : Int] before the transformation. *)
Definition authorConfig : GraphQLNamedFieldConfig :=
  {| cfgName := "author"; cfgType := NamedType "Int"; cfgResolve := DefaultResolver |}.

Definition postContext : FieldTransformationContext :=
  {| oldOuterType := "posts_Post"; mapType := fun type => type |}.

(** The closure of the link resolver for a link. *)
Definition authorClosure (link : LinkConfig) : LinkClosure :=
  {| link := link; targetEndpoint := usersEndpoint; originalType := NamedType "Int" |}.

(** A caller's selection [author { <selections> }] in an operation with the
    given variables. *)
Definition callerInfo (selections : list SelectionNode)
    (definitions : list VariableDefinitionNode) (values : gmap string JsValue)
  : GraphQLResolveInfo :=
  {| fieldNodes :=
       [{| fnAlias := None; fnName := "author"; fnSelectionSet := selections |}];
     infoFragments := [];
     infoOperation :=
       {| opOperation := query; opName := None;
          opVariableDefinitions := definitions;
          opSelectionSet := [Field None "posts" [] []] |};
     infoVariableValues := values |}.

(** [author { name }]. *)
Definition nameInfo : GraphQLResolveInfo :=
  callerInfo [Field None "name" [] []] [] ∅.

(** The type lookup of the merged schema, by name. *)
Definition sampleContext : TypeResolvers.SchemaTransformationContext :=
  {| TypeResolvers.findType := fun name =>
       match name with
       | JStr n => typeMap mergedSchema !! n
       | _ => None
       end |}.

(** The interface [Node] of the merged schema. *)
Definition nodeConfig : TypeResolvers.AbstractTypeConfig :=
  {| TypeResolvers.atcName := "Node"; TypeResolvers.atcResolveType := None |}.

(** Two source schemas for the merger, their root types given by name: the
    [users] backend has a query type only, the [posts] backend a query and a
    mutation type. *)
Definition sourceSchemas : list (@SchemaMerger.NamedSchema string nat string) :=
  [ {| SchemaMerger.namespace := "users";
       SchemaMerger.schema :=
         {| SchemaMerger.getQueryType := Some "UsersQuery";
            SchemaMerger.getMutationType := None;
            SchemaMerger.getSubscriptionType := None;
            SchemaMerger.getDirectives := ["skip"; "cached"] |};
       SchemaMerger.queryResolver := Some 1;
       SchemaMerger.mutationResolver := None;
       SchemaMerger.subscriptionResolver := None |};
    {| SchemaMerger.namespace := "posts";
       SchemaMerger.schema :=
         {| SchemaMerger.getQueryType := Some "PostsQuery";
            SchemaMerger.getMutationType := Some "PostsMutation";
            SchemaMerger.getSubscriptionType := None;
            SchemaMerger.getDirectives := [] |};
       SchemaMerger.queryResolver := Some 2;
       SchemaMerger.mutationResolver := Some 3;
       SchemaMerger.subscriptionResolver := None |} ].

(** The [posts] backend alone, stripped of its query type. *)
Definition mutationOnlySchemas : list (@SchemaMerger.NamedSchema string nat string) :=
  [ {| SchemaMerger.namespace := "posts";
       SchemaMerger.schema :=
         {| SchemaMerger.getQueryType := None;
            SchemaMerger.getMutationType := Some "PostsMutation";
            SchemaMerger.getSubscriptionType := None;
            SchemaMerger.getDirectives := [] |};
       SchemaMerger.queryResolver := None;
       SchemaMerger.mutationResolver := Some 3;
       SchemaMerger.subscriptionResolver := None |} ].

(** Two backends with a query type each, one of them under the namespace
    [__proto__]. *)
Definition protoSchemas : list (@SchemaMerger.NamedSchema string nat string) :=
  [ {| SchemaMerger.namespace := "users";
       SchemaMerger.schema :=
         {| SchemaMerger.getQueryType := Some "UsersQuery";
            SchemaMerger.getMutationType := None;
            SchemaMerger.getSubscriptionType := None;
            SchemaMerger.getDirectives := [] |};
       SchemaMerger.queryResolver := Some 1;
       SchemaMerger.mutationResolver := None;
       SchemaMerger.subscriptionResolver := None |};
    {| SchemaMerger.namespace := "__proto__";
       SchemaMerger.schema :=
         {| SchemaMerger.getQueryType := Some "PostsQuery";
            SchemaMerger.getMutationType := None;
            SchemaMerger.getSubscriptionType := None;
            SchemaMerger.getDirectives := [] |};
       SchemaMerger.queryResolver := Some 2;
       SchemaMerger.mutationResolver := None;
       SchemaMerger.subscriptionResolver := None |} ].

Definition nativeDirective (d : string) : bool :=
  String.eqb d "skip" || String.eqb d "include".

(** Two endpoints whose prefixes are ambiguous: [shop_] starts
    [shop_eu_]. *)
Definition shopEndpoint : EndpointConfig :=
  {| epName := "shop"; epUrl := "http://shop/graphql"; epLinks := ∅ |}.

Definition shopEuEndpoint : EndpointConfig :=
  {| epName := "shop_eu"; epUrl := "http://shop.eu/graphql"; epLinks := ∅ |}.

Definition shopEuXEndpoint : EndpointConfig :=
  {| epName := "shop_eu_x"; epUrl := "http://shop.eu/x/graphql"; epLinks := ∅ |}.

End Sample.

(** * Properties *)

(** ** Strings *)

Section StringFacts.

Lemma split_nonempty sep s : split sep s <> [].
Proof.
  destruct s as [|c s]; simpl; [discriminate|].
  destruct (Ascii.eqb c sep); [discriminate|].
  destruct (split sep s); discriminate.
Qed.

Lemma split_no_sep sep s : contains sep s = false -> split sep s = [s].
Proof.
  induction s as [|c s IH]; simpl; [reflexivity|].
  intros Hc. apply orb_false_iff in Hc as [Hc Hs].
  rewrite Hc, (IH Hs). reflexivity.
Qed.

Lemma split_append sep s t :
  contains sep s = false ->
  split sep (String.append s (String sep t)) = s :: split sep t.
Proof.
  induction s as [|c s IH]; simpl.
  - intros _. rewrite Ascii.eqb_refl. reflexivity.
  - intros Hc. apply orb_false_iff in Hc as [Hc Hs].
    rewrite Hc, (IH Hs). reflexivity.
Qed.

(** Splitting undoes joining, for segments free of the separator. *)
Lemma split_join sep seg segs :
  Forall (fun s => contains sep s = false) (seg :: segs) ->
  split sep (join sep (seg :: segs)) = seg :: segs.
Proof.
  revert seg. induction segs as [|seg' segs IH]; intros seg Hall.
  - simpl. apply split_no_sep. by inversion Hall.
  - inversion Hall as [|? ? Hseg Hrest]; subst.
    change (join sep (seg :: seg' :: segs))
      with (String.append seg (String sep (join sep (seg' :: segs)))).
    rewrite (split_append _ _ _ Hseg), (IH _ Hrest). reflexivity.
Qed.

Lemma startsWith_append p t : startsWith (String.append p t) p = true.
Proof.
  induction p as [|c p IH]; simpl; [by destruct t|].
  by rewrite Ascii.eqb_refl.
Qed.

Lemma substr_append p t : substr (String.append p t) (String.length p) = t.
Proof. induction p as [|c p IH]; simpl; [by destruct t|done]. Qed.

(** Two prefixes of one string: one starts the other. *)
Lemma startsWith_comparable s p q :
  startsWith s p = true -> startsWith s q = true ->
  startsWith q p = true \/ startsWith p q = true.
Proof.
  revert p q. induction s as [|c s IH]; intros [|a p] [|b q]; simpl; auto; try discriminate.
  intros Hp Hq.
  apply andb_true_iff in Hp as [Hca Hp]. apply andb_true_iff in Hq as [Hcb Hq].
  apply Ascii.eqb_eq in Hca, Hcb. subst a b. rewrite Ascii.eqb_refl. simpl.
  by apply IH.
Qed.

Lemma startsWith_length s p : startsWith s p = true -> String.length p <= String.length s.
Proof.
  revert p. induction s as [|c s IH]; intros [|a p]; simpl; try discriminate; try lia.
  intros Hp. apply andb_true_iff in Hp as [_ Hp]. specialize (IH _ Hp). lia.
Qed.

End StringFacts.

(** ** The nested argument builder *)

Lemma foldl_rev_wrap (parts : list string) (v : ValueNode) :
  foldl (fun value part => ObjectValue [(part, value)]) v (rev parts)
  = foldr (fun part value => ObjectValue [(part, value)]) v parts.
Proof.
  induction parts as [|part parts IH]; simpl; [reflexivity|].
  by rewrite foldl_app, IH.
Qed.

(** C6.  For a dotted path [s1.s2.....sn] (segments without a dot, the
    first one not empty) and a variable name [v], the builder returns the
    argument named [s1] whose value is the remaining segments folded from the
    right into nested object literals around [$v]. *)
Theorem createNestedArgument_right_fold (s1 : string) (rest : list string) (v : string) :
  s1 <> "" ->
  Forall (fun s => contains "." s = false) (s1 :: rest) ->
  createNestedArgumentWithVariableNode (join "." (s1 :: rest)) v
  = Normal (Argument s1 (nestedObject rest v)).
Proof.
  intros Hne Hsegs. unfold createNestedArgumentWithVariableNode, nestedObject.
  rewrite (split_join _ _ _ Hsegs).
  destruct (String.eqb_spec s1 ""); [contradiction|].
  by rewrite foldl_rev_wrap.
Qed.

(** The path ["filter.id"] with variable [v] yields [{filter: {id: $v}}]:
    the argument [filter] bound to the object [{id: $v}]. *)
Lemma createNestedArgument_filter_id :
  createNestedArgumentWithVariableNode "filter.id" "v"
  = Normal (Argument "filter" (ObjectValue [("id", VariableNode "v")])).
Proof.
  apply (createNestedArgument_right_fold "filter" ["id"] "v").
  - discriminate.
  - repeat constructor.
Defined.

(** ** The namespace router *)

Section Router.
Context `{Collaborators}.

(** [splitTypeName] answers with the first endpoint whose prefix matches. *)
Lemma splitTypeName_firstMatch endpoints mergedName :
  LinksTs.splitTypeName endpoints mergedName
  = match firstMatch endpoints mergedName with
    | Some e => Some (epName e, substr mergedName (String.length (getTypePrefix e)))
    | None => None
    end.
Proof.
  induction endpoints as [|e rest IH]; simpl; [reflexivity|].
  destruct (startsWith mergedName (getTypePrefix e)); [reflexivity|exact IH].
Qed.

Lemma unambiguous_match endpoints mergedName e1 e2 :
  unambiguousPrefixes endpoints ->
  e1 ∈ endpoints -> e2 ∈ endpoints ->
  startsWith mergedName (getTypePrefix e1) = true ->
  startsWith mergedName (getTypePrefix e2) = true ->
  e1 = e2.
Proof.
  intros Hun H1 H2 M1 M2.
  destruct (startsWith_comparable _ _ _ M1 M2) as [Hc|Hc].
  - by apply Hun.
  - symmetry. by apply Hun.
Qed.

Lemma longestPrefixMatch_keeps endpoints mergedName b :
  (forall e, e ∈ endpoints -> startsWith mergedName (getTypePrefix e) = true -> e = b) ->
  longestPrefixMatch endpoints mergedName (Some b) = Some b.
Proof.
  induction endpoints as [|e rest IH]; intros Hall; simpl; [reflexivity|].
  unfold prefixOf.
  destruct (startsWith mergedName (getTypePrefix e)) eqn:Hm.
  - rewrite (Hall e) by (done || by left). rewrite Nat.ltb_irrefl.
    apply IH. intros e' He'. apply Hall. by right.
  - apply IH. intros e' He'. apply Hall. by right.
Qed.

Lemma longestPrefixMatch_firstMatch endpoints mergedName :
  (forall e1 e2, e1 ∈ endpoints -> e2 ∈ endpoints ->
     startsWith mergedName (getTypePrefix e1) = true ->
     startsWith mergedName (getTypePrefix e2) = true -> e1 = e2) ->
  longestPrefixMatch endpoints mergedName None = firstMatch endpoints mergedName.
Proof.
  induction endpoints as [|e rest IH]; intros Hall; simpl; [reflexivity|].
  unfold prefixOf.
  destruct (startsWith mergedName (getTypePrefix e)) eqn:Hm.
  - apply longestPrefixMatch_keeps. intros e' He' Hm'.
    apply Hall; [by right|by left|done|done].
  - apply IH. intros e1 e2 H1 H2. apply Hall; by right.
Qed.

(** C9, as the code has it.  [splitTypeName] answers with the first
    endpoint, in configuration order, whose prefix starts the merged name,
    and with nothing when no prefix does: the match is a first match, not a
    longest-prefix match.  When no backend's prefix is a prefix of another
    backend's prefix, routing [prefixOf(b) + t] yields back exactly
    [{b, t}] for every configured backend [b] and type name [t]; at most one
    prefix then starts a name, so that the first match is also the longest
    one. *)
Theorem splitTypeName_first_match_inverts_prefixing (endpoints : list EndpointConfig) :
  (forall mergedName,
     LinksTs.splitTypeName endpoints mergedName
     = match firstMatch endpoints mergedName with
       | Some e => Some (epName e, substr mergedName (String.length (prefixOf e)))
       | None => None
       end)
  /\ (unambiguousPrefixes endpoints ->
      (forall b t, b ∈ endpoints ->
         LinksTs.splitTypeName endpoints (String.append (prefixOf b) t)
         = Some (epName b, t))
      /\ (forall mergedName,
            LinksTs.splitTypeName endpoints mergedName = route endpoints mergedName)).
Proof.
  split; [exact (splitTypeName_firstMatch endpoints)|].
  intros Hun. split.
  - intros b t Hb. rewrite splitTypeName_firstMatch.
    destruct (firstMatch endpoints (String.append (prefixOf b) t)) as [e|] eqn:Hfind.
    + apply List.find_some in Hfind as [He Hm]. apply list_elem_of_In in He.
      assert (e = b) as ->.
      { eapply unambiguous_match; eauto. apply startsWith_append. }
      by rewrite substr_append.
    + exfalso. apply list_elem_of_In in Hb.
      pose proof (List.find_none _ _ Hfind b Hb) as Hno. simpl in Hno.
      unfold prefixOf in Hno. by rewrite startsWith_append in Hno.
  - intros mergedName. rewrite splitTypeName_firstMatch. unfold route.
    rewrite longestPrefixMatch_firstMatch; [reflexivity|].
    intros e1 e2 H1 H2 M1 M2. by eapply unambiguous_match.
Qed.

End Router.

(** C9, as the specification states it, fails: the match is not a
    longest-prefix match.  With the prefixes [shop_] and [shop_eu_]
    configured in that order, both start the name [shop_eu_Order]; the
    longest-prefix match is [shop_eu] with the type [Order], while
    [splitTypeName] answers [shop] with the type [eu_Order]. *)
Lemma splitTypeName_is_not_longest_prefix :
  let H := Sample.sampleCollaborators in
  let endpoints := [Sample.shopEndpoint; Sample.shopEuEndpoint] in
  route endpoints "shop_eu_Order" = Some ("shop_eu", "Order")
  /\ LinksTs.splitTypeName endpoints "shop_eu_Order" = Some ("shop", "eu_Order")
  /\ LinksTs.splitTypeName endpoints "shop_eu_Order" <> route endpoints "shop_eu_Order".
Proof. vm_compute. repeat split. discriminate. Qed.

(** ** [Map] *)

Lemma sameValueZero_eq a b : sameValueZero a b = true -> a = b.
Proof.
  destruct a, b; simpl; try discriminate; try reflexivity.
  - intros Hb. by apply Bool.eqb_prop in Hb as ->.
  - intros Hn. by apply Z.eqb_eq in Hn as ->.
  - intros Hs. by apply String.eqb_eq in Hs as ->.
Qed.

Lemma mapGet_mapSet k v key m :
  mapGet key (mapSet k v m) = if sameValueZero k key then v else mapGet key m.
Proof.
  induction m as [|[k' v'] rest IH]; simpl; [reflexivity|].
  destruct (sameValueZero k' k) eqn:Hk'; simpl.
  - apply sameValueZero_eq in Hk' as ->.
    by destruct (sameValueZero k key).
  - rewrite IH. destruct (sameValueZero k' key) eqn:Hkey; [|reflexivity].
    destruct (sameValueZero k key) eqn:Hkey'; [|reflexivity].
    apply sameValueZero_eq in Hkey' as ->. congruence.
Qed.

Lemma newMap_snoc pairs k v : newMap (pairs ++ [(k, v)]) = mapSet k v (newMap pairs).
Proof. unfold newMap. by rewrite foldl_app. Qed.

(** A lookup in [new Map(pairs)] finds the last pair of the key. *)
Lemma mapGet_newMap key pairs : mapGet key (newMap pairs) = lookupLast key pairs.
Proof.
  induction pairs as [|[k v] pairs IH] using rev_ind; [reflexivity|].
  rewrite newMap_snoc, mapGet_mapSet, IH. unfold lookupLast.
  rewrite rev_app_distr. simpl. by destruct (sameValueZero k key).
Qed.

(** A key no pair carries is looked up as [undefined]. *)
Lemma lookupLast_miss key pairs :
  (forall kv, kv ∈ pairs -> sameValueZero kv.1 key = false) ->
  lookupLast key pairs = JUndefined.
Proof.
  intros Hmiss. unfold lookupLast.
  destruct (List.find _ (rev pairs)) as [kv|] eqn:Hfind; [|reflexivity].
  apply List.find_some in Hfind as [Hin Hkv].
  apply in_rev, list_elem_of_In in Hin. by rewrite (Hmiss kv Hin) in Hkv.
Qed.

(** A key carried by a pair is looked up as the value of such a pair; when
    one pair only carries it, as the value of that pair. *)
Lemma lookupLast_hit key pairs kv :
  kv ∈ pairs -> sameValueZero kv.1 key = true ->
  exists kv', kv' ∈ pairs /\ sameValueZero kv'.1 key = true
              /\ lookupLast key pairs = kv'.2.
Proof.
  intros Hin Hkv. unfold lookupLast.
  destruct (List.find _ (rev pairs)) as [kv'|] eqn:Hfind.
  - apply List.find_some in Hfind as [Hin' Hkv'].
    exists kv'. by rewrite list_elem_of_In, in_rev.
  - apply list_elem_of_In, in_rev in Hin.
    pose proof (List.find_none _ _ Hfind kv Hin) as Hno. simpl in Hno. congruence.
Qed.

Lemma lookupLast_unique key pairs kv :
  kv ∈ pairs -> sameValueZero kv.1 key = true ->
  (forall kv', kv' ∈ pairs -> sameValueZero kv'.1 key = true -> kv' = kv) ->
  lookupLast key pairs = kv.2.
Proof.
  intros Hin Hkv Huniq.
  destruct (lookupLast_hit key pairs kv Hin Hkv) as (kv' & Hin' & Hkv' & ->).
  by rewrite (Huniq kv' Hin' Hkv').
Qed.

(** ** The link engine: building and dispatching the sub-query *)

Section LinkEngine.
Context `{Collaborators}.

Lemma createNestedArgument_succeeds path v :
  firstSegment path <> "" ->
  exists argument, createNestedArgumentWithVariableNode path v = Normal argument.
Proof.
  unfold firstSegment, createNestedArgumentWithVariableNode.
  destruct (split "." path) as [|argName parts]; simpl; [done|].
  intros Hne. destruct (String.eqb_spec argName ""); [done|eauto].
Qed.

Lemma createNestedArgument_throws path v :
  firstSegment path = "" ->
  createNestedArgumentWithVariableNode path v = Throw ArgumentMustNotBeEmpty.
Proof.
  unfold firstSegment, createNestedArgumentWithVariableNode.
  destruct (split "." path) as [|argName parts]; simpl; [done|].
  by intros ->.
Qed.

(** Reading the key property off objects never throws and changes nothing. *)
Lemma keyed_objects alias items w :
  Forall (fun item => isObject item = true) items ->
  mapM (fun item => do k <- lift (getProp item alias); ret (k, item)) items w
  = (Normal (map (fun item => (propOf alias item, item)) items), w).
Proof.
  induction 1 as [|item items Hitem _ IH]; [reflexivity|].
  destruct item; try discriminate.
  cbn [mapM]. unfold bind at 1. unfold bind at 1. unfold lift at 1. cbn [getProp].
  unfold ret at 1. unfold bind at 1. rewrite IH. reflexivity.
Qed.

(** Reading the key property changes nothing, whatever the items. *)
Lemma keyed_world name items w :
  (mapM (fun item => do k <- lift (getProp item name); ret (k, item)) items w).2 = w.
Proof.
  induction items as [|item items IH]; [reflexivity|].
  cbn [mapM]. unfold bind at 1. unfold bind at 1. unfold lift at 1.
  destruct (getProp item name) as [k|e]; [|reflexivity].
  unfold ret at 1. unfold bind at 1.
  destruct (mapM _ items w) as [[pairs|e] w'] eqn:Hrest; simpl in IH; by subst.
Qed.

(** A promise has no data property: its key reads as [undefined]. *)
Lemma keyed_promises name promises w :
  Forall (fun p => isPromise p = true) promises ->
  mapM (fun item => do k <- lift (getProp item name); ret (k, item)) promises w
  = (Normal (map (fun p => (JUndefined, p)) promises), w).
Proof.
  induction 1 as [|p promises Hp _ IH]; [reflexivity|].
  destruct p; try discriminate.
  cbn [mapM]. unfold bind at 1. unfold bind at 1. unfold lift at 1. cbn [getProp].
  unfold ret at 1. unfold bind at 1. rewrite IH. reflexivity.
Qed.

(** The tail of [resolveBatch] after the dispatch: the map is built from
    the items' keys and every requested key is looked up in it. *)
Lemma remapping_keeps_world alias keys (c : Completion JsValue) w :
  ((do result <- lift c;
    do items <- lift (asArray result);
    do pairs <- mapM (fun item => do k <- lift (getProp item alias); ret (k, item)) items;
    ret (JArr (map (fun key => mapGet key (newMap pairs)) keys))) w).2 = w.
Proof.
  unfold bind at 1. unfold lift at 1. destruct c as [result|e]; [|reflexivity].
  unfold bind at 1. unfold lift at 1.
  destruct (asArray result) as [items|e]; [|reflexivity].
  pose proof (keyed_world alias items w) as Hworld.
  unfold bind at 1. by destruct (mapM _ items _) as [[pairs|e] w'].
Qed.

Lemma remapping_of_objects alias keys items w :
  Forall (fun item => isObject item = true) items ->
  ((do result <- lift (Normal (JArr items));
    do items <- lift (asArray result);
    do pairs <- mapM (fun item => do k <- lift (getProp item alias); ret (k, item)) items;
    ret (JArr (map (fun key => mapGet key (newMap pairs)) keys))) w).1
  = Normal (JArr (map (remap alias items) keys)).
Proof.
  intros Hitems.
  unfold bind at 1. unfold lift at 1. unfold bind at 1. unfold lift at 1.
  cbn [asArray]. unfold bind at 1. rewrite (keyed_objects _ _ _ Hitems).
  unfold ret. cbn [fst]. do 2 f_equal.
  apply map_ext. intros key. apply mapGet_newMap.
Qed.

(** The remapped list, element by element. *)
Lemma remap_pointwise alias items keys i key :
  keys !! i = Some key ->
  (forall item, item ∈ items ->
     sameValueZero (propOf alias item) key = true ->
     (forall item', item' ∈ items ->
        sameValueZero (propOf alias item') key = true -> item' = item) ->
     map (remap alias items) keys !! i = Some item)
  /\ ((forall item, item ∈ items -> sameValueZero (propOf alias item) key = false) ->
      map (remap alias items) keys !! i = Some JUndefined).
Proof.
  intros Hi. rewrite list_lookup_fmap, Hi. cbn. unfold remap. split.
  - intros item Hin Hmatch Huniq. f_equal.
    apply (lookupLast_unique key _ (propOf alias item, item)).
    + apply list_elem_of_fmap. by exists item.
    + done.
    + intros [k item'] Hin' Hmatch'.
      apply list_elem_of_fmap in Hin' as (item'' & [= -> ->] & Hin'').
      by rewrite (Huniq item'' Hin'' Hmatch').
  - intros Hmiss. f_equal. apply lookupLast_miss.
    intros [k item'] Hin'.
    apply list_elem_of_fmap in Hin' as (item'' & [= -> ->] & Hin''). by apply Hmiss.
Qed.

(** Mapping an [async] function over a list yields one promise per element
    and never throws. *)
Lemma mapM_async_promises {A} (body : A -> M JsValue) (l : list A) w :
  exists promises w',
    mapM (fun a => async (body a)) l w = (Normal promises, w')
    /\ Forall (fun p => isPromise p = true) promises
    /\ length promises = length l.
Proof.
  revert w. induction l as [|a l IH]; intros w.
  - by exists [], w.
  - cbn [mapM]. unfold bind at 1. unfold async at 1.
    destruct (body a w) as [c w1].
    destruct (IH w1) as (promises & w' & Hrun & Hall & Hlen).
    exists (JPromise c :: promises), w'.
    unfold bind at 1. rewrite Hrun. unfold ret.
    split; [done|]. split; [by constructor|]. cbn. by rewrite Hlen.
Qed.

(** *** [part_000] *)

(** Without [batchMode], [basicResolve] dispatches one call that binds the
    key to the chosen variable, and hands back the promise of the answer's
    link field. *)
Lemma part000_basicResolve_unbatched cl key info w :
  linkBatchMode (link cl) = false ->
  firstSegment (linkArgument (link cl)) <> "" ->
  exists call,
    Part000.basicResolve cl key info w
    = (Normal (JPromise (andThen (execute call)
                           (fun obj => getProp obj (linkField (link cl))))),
       logCall call w)
    /\ target call = epUrl (targetEndpoint cl)
    /\ callVariables call !! (Part000.extendedVariables cl info).2 = Some key.
Proof.
  intros Hbatch Harg.
  unfold Part000.basicResolve, async.
  destruct (Part000.extendedVariables cl info) as [definitions varName] eqn:Hvars.
  rewrite Hbatch. cbn [andb].
  destruct (createNestedArgument_succeeds _ varName Harg) as [argument Hargument].
  unfold bind, ret, lift, dispatch. rewrite Hargument.
  exists (Part000.linkQuery cl info definitions varName argument
            (selectionSet (getFieldAsQueryParts info)) key).
  split; [|split].
  - destruct (execute _); reflexivity.
  - reflexivity.
  - cbn. apply lookup_insert_eq.
Qed.

(** With [batchMode] and a key field, [basicResolve] records the alias
    chosen for the key field and dispatches one call. *)
Lemma part000_basicResolve_batched cl value info w :
  linkBatchMode (link cl) = true ->
  keyFieldSet (link cl) = true ->
  firstSegment (linkArgument (link cl)) <> "" ->
  exists call,
    Part000.basicResolve cl value info w
    = (Normal (JPromise (andThen (execute call)
                           (fun obj => getProp obj (linkField (link cl))))),
       logCall call (withKeyFieldAlias (Part000.extendedSelection cl info).1 w))
    /\ target call = epUrl (targetEndpoint cl)
    /\ callVariables call !! (Part000.extendedVariables cl info).2 = Some value.
Proof.
  intros Hbatch Hkey Harg.
  unfold Part000.basicResolve, async.
  destruct (Part000.extendedVariables cl info) as [definitions varName] eqn:Hvars.
  destruct (Part000.extendedSelection cl info) as [alias newSelectionSet] eqn:Hsel.
  rewrite Hbatch, Hkey. cbn [andb].
  destruct (createNestedArgument_succeeds _ varName Harg) as [argument Hargument].
  unfold bind, ret, lift, dispatch, setKeyFieldAlias. rewrite Hargument.
  exists (Part000.linkQuery cl info definitions varName argument newSelectionSet value).
  split; [|split].
  - destruct (execute _); reflexivity.
  - reflexivity.
  - cbn. apply lookup_insert_eq.
Qed.

(** What [basicResolve] of [part_000] dispatches, in either mode. *)
Lemma part000_basicResolve_run cl value info w :
  firstSegment (linkArgument (link cl)) <> "" ->
  let parts := getFieldAsQueryParts info in
  let chosen := Part000.extendedVariables cl info in
  let keyed := linkBatchMode (link cl) && keyFieldSet (link cl) in
  exists argument,
    createNestedArgumentWithVariableNode (linkArgument (link cl)) chosen.2
    = Normal argument
    /\ Part000.basicResolve cl value info w
       = (Normal (answerOf cl
                    (Part000.linkQuery cl info chosen.1 chosen.2 argument
                       (if keyed then (Part000.extendedSelection cl info).2
                        else selectionSet parts) value)),
          logCall
            (Part000.linkQuery cl info chosen.1 chosen.2 argument
               (if keyed then (Part000.extendedSelection cl info).2
                else selectionSet parts) value)
            (if keyed then withKeyFieldAlias (Part000.extendedSelection cl info).1 w
             else w)).
Proof.
  intros Harg parts chosen keyed. unfold chosen, keyed, parts.
  unfold Part000.basicResolve, async, answerOf.
  destruct (Part000.extendedVariables cl info) as [definitions varName] eqn:Hvars.
  destruct (Part000.extendedSelection cl info) as [alias newSelectionSet] eqn:Hsel.
  destruct (createNestedArgument_succeeds _ varName Harg) as [argument Hargument].
  exists argument. split; [exact Hargument|].
  unfold bind, ret, lift, dispatch, setKeyFieldAlias. cbn [fst snd].
  destruct (linkBatchMode (link cl) && keyFieldSet (link cl));
    rewrite Hargument; by destruct (execute _).
Qed.

End LinkEngine.

(** ** [resolveBatch] *)

Section ResolveBatch.
Context `{Collaborators}.

Lemma logCalls_nil w : logCalls [] w = w.
Proof. destruct w. unfold logCalls. cbn. by rewrite app_nil_r. Qed.

Lemma logCalls_cons call calls w :
  logCalls calls (logCall call w) = logCalls (call :: calls) w.
Proof. unfold logCalls, logCall. cbn. by rewrite <- app_assoc. Qed.

Lemma part000_unbatched_calls cl keys info w :
  linkBatchMode (link cl) = false ->
  firstSegment (linkArgument (link cl)) <> "" ->
  exists calls,
    Forall2 (carries cl info) keys calls
    /\ mapM (fun key => Part000.basicResolve cl key info) keys w
       = (Normal (map (answerOf cl) calls), logCalls calls w).
Proof.
  intros Hbatch Harg. revert w.
  induction keys as [|key keys IH]; intros w.
  - exists []. split; [constructor|]. by rewrite logCalls_nil.
  - destruct (part000_basicResolve_unbatched cl key info w Hbatch Harg)
      as (call & Hrun & Htarget & Hvar).
    destruct (IH (logCall call w)) as (calls & Hcarry & Hrest).
    exists (call :: calls). split; [by constructor|].
    cbn [mapM]. unfold bind at 1. rewrite Hrun.
    unfold bind at 1. rewrite Hrest. unfold ret.
    by rewrite logCalls_cons.
Qed.

(** The alias [resolveBatch] finds in [keyFieldAlias] when it resumes: the
    one other batches wrote meanwhile, else the one its own [basicResolve]
    wrote. *)
Lemma keyFieldAlias_after_await meanwhile own call w :
  keyFieldAlias (interleave meanwhile (logCall call (withKeyFieldAlias own w)))
  = Some (default own meanwhile).
Proof. by destruct meanwhile. Qed.

Lemma dispatched_interleave meanwhile w :
  dispatched (interleave meanwhile w) = dispatched w.
Proof. by destruct meanwhile. Qed.

(** X3.  [part_000], without [batchMode]: for [N] keys, [resolveBatch] dispatches
    exactly [N] calls, the [i]-th one carrying the [i]-th key, and returns
    the [N] promises of their answers in the same order, whether or not a
    key field is configured and whatever other batches do meanwhile. *)
Theorem part000_resolveBatch_one_call_per_key meanwhile cl keys info w :
  linkBatchMode (link cl) = false ->
  firstSegment (linkArgument (link cl)) <> "" ->
  exists calls,
    Forall2 (carries cl info) keys calls
    /\ Part000.resolveBatch meanwhile cl keys info w
       = (Normal (JArr (map (answerOf cl) calls)),
          interleave meanwhile (logCalls calls w)).
Proof.
  intros Hbatch Harg.
  destruct (part000_unbatched_calls cl keys info w Hbatch Harg) as (calls & Hcarry & Hrun).
  exists calls. split; [done|].
  unfold Part000.resolveBatch. rewrite Hbatch. cbn [negb orb].
  unfold bind at 1. unfold bind at 1. rewrite Hrun. reflexivity.
Qed.

(** X2.  [part_000]: when [batchMode] or [keyField] is unset, what the dispatch
    produced is returned as it is, whatever other batches do meanwhile. *)
Theorem part000_resolveBatch_returns_result_as_is meanwhile cl keys info w :
  (linkBatchMode (link cl) = false ->
   (Part000.resolveBatch meanwhile cl keys info w).1
   = ((do promises <- mapM (fun key => Part000.basicResolve cl key info) keys;
       ret (JArr promises)) w).1
   /\ (Part000.resolveBatch meanwhile cl keys info w).2
      = interleave meanwhile
          (mapM (fun key => Part000.basicResolve cl key info) keys w).2)
  /\ (linkBatchMode (link cl) = true -> keyFieldSet (link cl) = false ->
      Part000.resolveBatch meanwhile cl keys info w
      = (do promise <- Part000.basicResolve cl (JArr keys) info;
         awaitWhile meanwhile promise) w).
Proof.
  split.
  - intros Hbatch. unfold Part000.resolveBatch. rewrite Hbatch. cbn [negb orb].
    unfold Part000.basicResolve.
    match goal with
    | |- context [mapM (fun key => async (@?body key)) keys] =>
        destruct (mapM_async_promises body keys w) as (promises & w' & Hrun & _)
    end.
    split.
    + unfold bind at 1. unfold bind at 1. rewrite Hrun.
      unfold bind at 1. rewrite Hrun. reflexivity.
    + unfold bind at 1. unfold bind at 1. rewrite Hrun. reflexivity.
  - intros Hbatch Hkey. unfold Part000.resolveBatch. rewrite Hbatch, Hkey. cbn [negb orb].
    unfold bind, awaitWhile, ret.
    destruct (Part000.basicResolve cl (JArr keys) info w) as [[promise|e] w']; [|done].
    by destruct (settle promise).
Qed.

(** X1.  [part_000], with [batchMode] and [keyField]: one call carries the
    whole list of keys.  When the answer arrives, the items are keyed by
    the alias [keyFieldAlias] holds at that moment: the alias this batch
    chose for the key field when no other batch of the link wrote the
    variable while this one was suspended, and the alias the other batch
    wrote otherwise.  When the backend answers with a list of objects, in
    whatever order and however partial, the returned list has the length of
    the requested keys, its [i]-th element is the item whose value under
    that alias is the [i]-th requested key, and [undefined] when no item
    has that value. *)
Theorem part000_resolveBatch_remaps_by_key meanwhile cl keys info w :
  linkBatchMode (link cl) = true ->
  keyFieldSet (link cl) = true ->
  firstSegment (linkArgument (link cl)) <> "" ->
  let own := (Part000.extendedSelection cl info).1 in
  let alias := default own meanwhile in
  exists call,
    carries cl info (JArr keys) call
    /\ (Part000.resolveBatch meanwhile cl keys info w).2
       = interleave meanwhile (logCall call (withKeyFieldAlias own w))
    /\ forall obj items,
        execute call = Normal obj ->
        getProp obj (linkField (link cl)) = Normal (JArr items) ->
        Forall (fun item => isObject item = true) items ->
        exists out,
          (Part000.resolveBatch meanwhile cl keys info w).1 = Normal (JArr out)
          /\ length out = length keys
          /\ forall i key, keys !! i = Some key ->
               (forall item, item ∈ items ->
                  sameValueZero (propOf alias item) key = true ->
                  (forall item', item' ∈ items ->
                     sameValueZero (propOf alias item') key = true -> item' = item) ->
                  out !! i = Some item)
               /\ ((forall item, item ∈ items ->
                      sameValueZero (propOf alias item) key = false) ->
                   out !! i = Some JUndefined).
Proof.
  intros Hbatch Hkey Harg own alias.
  destruct (part000_basicResolve_batched cl (JArr keys) info w Hbatch Hkey Harg)
    as (call & Hrun & Htarget & Hvar).
  exists call. split; [done|].
  assert (Part000.resolveBatch meanwhile cl keys info w
          = (do result <- lift (andThen (execute call)
                                  (fun obj => getProp obj (linkField (link cl))));
             do items <- lift (asArray result);
             do pairs <- mapM (fun item => do k <- lift (getProp item alias); ret (k, item))
                           items;
             ret (JArr (map (fun key => mapGet key (newMap pairs)) keys)))
              (interleave meanwhile (logCall call (withKeyFieldAlias own w)))) as ->.
  { unfold Part000.resolveBatch. rewrite Hbatch, Hkey. cbn [negb orb].
    unfold bind at 1. unfold bind at 1. rewrite Hrun.
    unfold awaitWhile. cbn [settle].
    destruct (andThen _ _) as [result|e]; unfold bind, lift; [|reflexivity].
    destruct (asArray result) as [items|e]; [|reflexivity].
    unfold getKeyFieldAlias. by rewrite keyFieldAlias_after_await. }
  split; [apply remapping_keeps_world|].
  intros obj items Hexec Hfield Hitems.
  exists (map (remap alias items) keys).
  rewrite Hexec. cbn [andThen]. rewrite Hfield.
  split; [by apply remapping_of_objects|].
  split; [by rewrite length_map|].
  intros i key Hi. by apply remap_pointwise.
Qed.

End ResolveBatch.

(** ** [links.ts]: the remapping without [batchMode], and the fixed names *)

Section LinksTsBatch.
Context `{Collaborators}.

Lemma truthy_not_undefined key : truthy key = true -> sameValueZero JUndefined key = false.
Proof. by destruct key. Qed.

(** X4.  [links.ts], without [batchMode] but with a [keyField]: the map is built
    over the promises, which all read as key [undefined], so every truthy
    requested key is looked up as [undefined]. *)
Lemma linksTs_unbatched_keyField_undefined cl keys info w :
  linkBatchMode (link cl) = false ->
  keyFieldSet (link cl) = true ->
  Forall (fun key => truthy key = true) keys ->
  (LinksTs.resolveBatch cl keys info w).1
  = Normal (JArr (map (fun _ => JUndefined) keys)).
Proof.
  intros Hbatch Hkey Hkeys.
  unfold LinksTs.resolveBatch. rewrite Hbatch, Hkey. cbn [negb].
  unfold LinksTs.basicResolve.
  destruct (mapM_async_promises
              (fun key =>
                 do obj <- LinksTs.resolveAsProxy info (epUrl (targetEndpoint cl))
                             (LinksTs.transform cl key);
                 lift (getProp obj (linkField (link cl)))) keys w)
    as (promises & w' & Hrun & Hall & Hlen).
  unfold bind at 1. unfold bind at 1. rewrite Hrun.
  unfold await, lift at 1. cbn [settle].
  unfold bind at 1. unfold lift at 1. cbn [asArray].
  unfold bind at 1. rewrite (keyed_promises _ _ _ Hall).
  unfold ret. cbn [fst]. do 2 f_equal.
  apply map_ext_in. intros key Hin. apply list_elem_of_In in Hin.
  rewrite mapGet_newMap. apply lookupLast_miss.
  intros [k p] Hkp. apply list_elem_of_fmap in Hkp as (p' & [= -> ->] & _).
  apply truthy_not_undefined. rewrite Forall_forall in Hkeys. by apply Hkeys.
Qed.

(** The variable type of [links.ts]: the constructor throws exactly for a
    [batchMode] link on a field whose own type is non-null. *)
Lemma linksTs_varType cl :
  LinksTs.varType cl
  = if linkBatchMode (link cl) && negb (nullable (originalType cl))
    then Throw NonNullOfNonNull
    else Normal (if linkBatchMode (link cl)
                 then GraphQLNonNull (GraphQLList (GraphQLNonNull (originalType cl)))
                 else originalType cl).
Proof.
  unfold LinksTs.varType, newGraphQLNonNull.
  destruct (linkBatchMode (link cl)); [|reflexivity].
  by destruct (originalType cl).
Qed.

(** What [basicResolve] of [links.ts] dispatches when the variable type can
    be built and the nested argument is built. *)
Lemma linksTs_basicResolve_with cl value info argument w :
  linkBatchMode (link cl) = false \/ nullable (originalType cl) = true ->
  createNestedArgumentWithVariableNode (linkArgument (link cl)) LinksTs.varName
  = Normal argument ->
  LinksTs.basicResolve cl value info w
  = (Normal (answerOf cl (proxiedQuery cl info argument value)),
     logCall (proxiedQuery cl info argument value) w).
Proof.
  intros Htype Hargument.
  unfold LinksTs.basicResolve, async, LinksTs.resolveAsProxy, LinksTs.transform.
  rewrite linksTs_varType, Hargument.
  assert (linkBatchMode (link cl) && negb (nullable (originalType cl)) = false) as ->.
  { destruct Htype as [-> | ->]; [done|apply andb_false_r]. }
  unfold bind, lift, dispatch, answerOf, proxiedQuery.
  cbn [pqFragments pqOperation pqVariables].
  by destruct (execute _).
Qed.

(** [links.ts]: [basicResolve] dispatches one call that binds the value to
    [$param]. *)
Lemma linksTs_basicResolve_dispatches cl value info w :
  linkBatchMode (link cl) = false \/ nullable (originalType cl) = true ->
  firstSegment (linkArgument (link cl)) <> "" ->
  exists call,
    LinksTs.basicResolve cl value info w = (Normal (answerOf cl call), logCall call w)
    /\ target call = epUrl (targetEndpoint cl)
    /\ callVariables call !! LinksTs.varName = Some value.
Proof.
  intros Htype Harg.
  destruct (createNestedArgument_succeeds _ LinksTs.varName Harg) as [argument Hargument].
  exists (proxiedQuery cl info argument value).
  split; [by apply linksTs_basicResolve_with|]. split; [reflexivity|].
  cbn. apply lookup_insert_eq.
Qed.

(** X6.  [links.ts], with [batchMode] and [keyField], for a link field
    whose own type is not non-null (the variable type wraps it in a
    non-null): one call carries the whole list of keys; when the backend
    answers with a list of objects, the returned list has the length of the
    requested keys, its [i]-th element is the item whose [keyField] value is
    the [i]-th requested key, and [undefined] when no item has that value. *)
Theorem linksTs_resolveBatch_remaps_by_key cl keys info w :
  linkBatchMode (link cl) = true ->
  keyFieldSet (link cl) = true ->
  nullable (originalType cl) = true ->
  firstSegment (linkArgument (link cl)) <> "" ->
  let keyField := keyFieldName (link cl) in
  exists call,
    target call = epUrl (targetEndpoint cl)
    /\ callVariables call !! LinksTs.varName = Some (JArr keys)
    /\ (LinksTs.resolveBatch cl keys info w).2 = logCall call w
    /\ forall obj items,
        execute call = Normal obj ->
        getProp obj (linkField (link cl)) = Normal (JArr items) ->
        Forall (fun item => isObject item = true) items ->
        exists out,
          (LinksTs.resolveBatch cl keys info w).1 = Normal (JArr out)
          /\ length out = length keys
          /\ forall i key, keys !! i = Some key ->
               (forall item, item ∈ items ->
                  sameValueZero (propOf keyField item) key = true ->
                  (forall item', item' ∈ items ->
                     sameValueZero (propOf keyField item') key = true -> item' = item) ->
                  out !! i = Some item)
               /\ ((forall item, item ∈ items ->
                      sameValueZero (propOf keyField item) key = false) ->
                   out !! i = Some JUndefined).
Proof.
  intros Hbatch Hkey Hnullable Harg keyField.
  destruct (linksTs_basicResolve_dispatches cl (JArr keys) info w
              (or_intror Hnullable) Harg)
    as (call & Hrun & Htarget & Hvar).
  exists call. split; [done|]. split; [done|].
  assert (LinksTs.resolveBatch cl keys info w
          = (do result <- lift (andThen (execute call)
                                  (fun obj => getProp obj (linkField (link cl))));
             do items <- lift (asArray result);
             do pairs <- mapM (fun item => do k <- lift (getProp item keyField);
                                           ret (k, item)) items;
             ret (JArr (map (fun key => mapGet key (newMap pairs)) keys)))
              (logCall call w)) as ->.
  { unfold LinksTs.resolveBatch. rewrite Hbatch, Hkey. cbn [negb].
    unfold bind at 1. unfold bind at 1. rewrite Hrun.
    unfold await, answerOf. cbn [settle]. unfold bind at 3. unfold lift at 1.
    by destruct (andThen _ _) as [result|e]. }
  split; [apply remapping_keeps_world|].
  intros obj items Hexec Hfield Hitems.
  exists (map (remap keyField items) keys).
  rewrite Hexec. cbn [andThen]. rewrite Hfield.
  split; [by apply remapping_of_objects|].
  split; [by rewrite length_map|].
  intros i key Hi. by apply remap_pointwise.
Qed.

End LinksTsBatch.

(** C1 (a defect of [links.ts], lines 111-117).  The link [Post.author ->
    users.user(id)] with [keyField] but without [batchMode], keys [3] and
    [1]: the backend answers each call with the user of that id, yet
    [resolveBatch] of [links.ts] remaps the promises by key and returns
    [undefined] twice, where the answers should be returned as they are;
    [resolveBatch] of [part_000] returns the two promises as they are. *)
Theorem linksTs_resolveBatch_remaps_without_batchMode :
  let cl := Sample.authorClosure (Sample.authorLink "user" "id" false (Some "id")) in
  let old := LinksTs.resolveBatch (H := Sample.sampleCollaborators) cl
               [JNum 3; JNum 1] Sample.nameInfo emptyWorld in
  let new := Part000.resolveBatch (H := Sample.sampleCollaborators) None cl
               [JNum 3; JNum 1] Sample.nameInfo emptyWorld in
  map (fun call => Sample.sampleExecute call) (dispatched old.2)
  = [ Normal (JObj [("user", JObj [("name", JStr "Cy"); ("id", JNum 3)])]);
      Normal (JObj [("user", JObj [("name", JStr "Ada"); ("id", JNum 1)])]) ]
  /\ old.1 = Normal (JArr [JUndefined; JUndefined])
  /\ new.1 = Normal (JArr [ JPromise (Normal (JObj [("name", JStr "Cy")]));
                            JPromise (Normal (JObj [("name", JStr "Ada")])) ]).
Proof. vm_compute. repeat split. Qed.

(** C3 (the same defect of [links.ts], lines 108-117).  Without
    [batchMode] and with a [keyField], three keys: [resolveBatch] of
    [links.ts] dispatches three calls, one per key in key order, but the
    returned list is [undefined] three times and matches none of the three
    resolved values. *)
Theorem linksTs_resolveBatch_unbatched_results_lost :
  let cl := Sample.authorClosure (Sample.authorLink "user" "id" false (Some "id")) in
  let run := LinksTs.resolveBatch (H := Sample.sampleCollaborators) cl
               [JNum 2; JNum 3; JNum 1] Sample.nameInfo emptyWorld in
  map (fun call => callVariables call !! LinksTs.varName) (dispatched run.2)
  = [Some (JNum 2); Some (JNum 3); Some (JNum 1)]
  /\ map (fun call => settle (answerOf (H := Sample.sampleCollaborators) cl call))
       (dispatched run.2)
     = [ Normal (JObj [("name", JStr "Bob"); ("id", JNum 2)]);
         Normal (JObj [("name", JStr "Cy"); ("id", JNum 3)]);
         Normal (JObj [("name", JStr "Ada"); ("id", JNum 1)]) ]
  /\ run.1 = Normal (JArr [JUndefined; JUndefined; JUndefined]).
Proof. vm_compute. repeat split. Qed.

(** C2 (a defect of [links.ts], lines 47-98).  The caller's operation
    declares a variable [$param] and selects [id: name]; the link has key
    field [id].  The rewrite of [links.ts] declares [$param] a second time,
    replaces the caller's value of [param] by the link key, and adds the
    selection [id] beside the caller's [id: name], so that two different
    fields answer under the response key [id]. *)
Theorem linksTs_transform_collides :
  let cl := Sample.authorClosure (Sample.authorLink "usersByIds" "ids" true (Some "id")) in
  let caller :=
    Sample.sampleProxyQuery
      (Sample.callerInfo [Field (Some "id") "name" [] []]
         [VariableDefinition "param" (NamedTypeNode "String")]
         {["param" := JStr "x"]}) in
  exists q argument inner,
    LinksTs.transform cl (JArr [JNum 1]) caller = Normal q
    /\ declaredNames (opVariableDefinitions (pqOperation caller)) = ["param"]
    /\ declaredNames (opVariableDefinitions (pqOperation q)) = ["param"; "param"]
    /\ pqVariables caller !! "param" = Some (JStr "x")
    /\ pqVariables q !! "param" = Some (JArr [JNum 1])
    /\ opSelectionSet (pqOperation caller) = [Field (Some "id") "name" [] []]
    /\ opSelectionSet (pqOperation q) = [Field None "usersByIds" [argument] inner]
    /\ inner = [Field (Some "id") "name" [] []; Field None "id" [] []]
    /\ responseKeys inner = ["id"; "id"].
Proof. eexists _, _, _. vm_compute. repeat split. Qed.
(** ** The calls a batch dispatches *)

Section BatchQueries.
Context `{Collaborators}.

Lemma dispatched_logCalls calls w : dispatched (logCalls calls w) = dispatched w ++ calls.
Proof. reflexivity. Qed.

(** [basicResolve] of [part_000] for a path whose nested argument is
    built. *)
Lemma part000_basicResolve_with cl value info argument w :
  createNestedArgumentWithVariableNode (linkArgument (link cl))
    (Part000.extendedVariables cl info).2 = Normal argument ->
  Part000.basicResolve cl value info w
  = (Normal (answerOf cl (builtQuery cl info argument value)),
     logCall (builtQuery cl info argument value)
       (if linkBatchMode (link cl) && keyFieldSet (link cl)
        then withKeyFieldAlias (Part000.extendedSelection cl info).1 w
        else w)).
Proof.
  intros Hargument.
  unfold Part000.basicResolve, async, answerOf, builtQuery.
  destruct (Part000.extendedVariables cl info) as [definitions varName] eqn:Hvars.
  destruct (Part000.extendedSelection cl info) as [alias newSelectionSet] eqn:Hsel.
  cbn [fst snd] in *.
  unfold bind, ret, lift, dispatch, setKeyFieldAlias.
  destruct (linkBatchMode (link cl) && keyFieldSet (link cl));
    rewrite Hargument; by destruct (execute _).
Qed.

Lemma part000_mapM_with cl info argument values w :
  linkBatchMode (link cl) = false ->
  createNestedArgumentWithVariableNode (linkArgument (link cl))
    (Part000.extendedVariables cl info).2 = Normal argument ->
  mapM (fun value => Part000.basicResolve cl value info) values w
  = (Normal (map (fun value => answerOf cl (builtQuery cl info argument value)) values),
     logCalls (map (builtQuery cl info argument) values) w).
Proof.
  intros Hbatch Hargument. revert w.
  induction values as [|value values IH]; intros w.
  - cbn. by rewrite logCalls_nil.
  - cbn [mapM map]. unfold bind at 1.
    rewrite (part000_basicResolve_with _ _ _ _ _ Hargument), Hbatch. cbn [andb].
    unfold bind at 1. rewrite IH. unfold ret. by rewrite logCalls_cons.
Qed.

(** The tail of [resolveBatch] of [part_000] after its [await] changes
    nothing. *)
Lemma part000_remapping_keeps_world keys result w :
  ((do items <- lift (asArray result);
    do alias <- getKeyFieldAlias;
    do pairs <- mapM (fun item =>
                        do k <- lift (getProp item (default "undefined" alias));
                        ret (k, item)) items;
    ret (JArr (map (fun key => mapGet key (newMap pairs)) keys))) w).2 = w.
Proof.
  unfold bind at 1. unfold lift at 1.
  destruct (asArray result) as [items|e]; [|reflexivity].
  unfold bind at 1. unfold getKeyFieldAlias at 1.
  pose proof (keyed_world (default "undefined" (keyFieldAlias w)) items w) as Hworld.
  unfold bind at 1. by destruct (mapM _ items _) as [[pairs|e] w'].
Qed.

Lemma linksTs_remapping_keeps_world name keys result w :
  ((do items <- lift (asArray result);
    do pairs <- mapM (fun item => do k <- lift (getProp item name); ret (k, item)) items;
    ret (JArr (map (fun key => mapGet key (newMap pairs)) keys))) w).2 = w.
Proof.
  unfold bind at 1. unfold lift at 1.
  destruct (asArray result) as [items|e]; [|reflexivity].
  pose proof (keyed_world name items w) as Hworld.
  unfold bind at 1. by destruct (mapM _ items _) as [[pairs|e] w'].
Qed.

(** The calls [resolveBatch] of [part_000] dispatches: one for the whole
    list of keys with [batchMode], one per key without, each built from
    [info], whatever the backend answers and whatever other batches do
    meanwhile. *)
Lemma part000_resolveBatch_dispatched meanwhile cl keys info argument w :
  createNestedArgumentWithVariableNode (linkArgument (link cl))
    (Part000.extendedVariables cl info).2 = Normal argument ->
  dispatched (Part000.resolveBatch meanwhile cl keys info w).2
  = dispatched w ++ map (builtQuery cl info argument) (linkValues cl keys).
Proof.
  intros Hargument. unfold Part000.resolveBatch, linkValues.
  destruct (linkBatchMode (link cl)) eqn:Hbatch; cbn [negb orb].
  - unfold bind at 1. unfold bind at 1.
    rewrite (part000_basicResolve_with _ _ _ _ _ Hargument), Hbatch. cbn [andb].
    set (w1 := logCall _ _).
    assert (dispatched w1 = dispatched w ++ [builtQuery cl info argument (JArr keys)])
      as Hlog by (unfold w1; by destruct (keyFieldSet (link cl))).
    unfold awaitWhile. cbn [map].
    destruct (settle _) as [result|e]; [|by cbn; rewrite dispatched_interleave].
    destruct (keyFieldSet (link cl)); cbn [negb].
    + rewrite part000_remapping_keeps_world. by rewrite dispatched_interleave.
    + cbn. by rewrite dispatched_interleave.
  - unfold bind at 1. unfold bind at 1.
    rewrite (part000_mapM_with _ _ _ _ _ Hbatch Hargument).
    unfold awaitWhile. cbn. by rewrite dispatched_interleave.
Qed.

Lemma linksTs_mapM_with cl info argument values w :
  linkBatchMode (link cl) = false \/ nullable (originalType cl) = true ->
  createNestedArgumentWithVariableNode (linkArgument (link cl)) LinksTs.varName
  = Normal argument ->
  mapM (fun value => LinksTs.basicResolve cl value info) values w
  = (Normal (map (fun value => answerOf cl (proxiedQuery cl info argument value)) values),
     logCalls (map (proxiedQuery cl info argument) values) w).
Proof.
  intros Htype Hargument. revert w.
  induction values as [|value values IH]; intros w.
  - cbn. by rewrite logCalls_nil.
  - cbn [mapM map]. unfold bind at 1.
    rewrite (linksTs_basicResolve_with _ _ _ _ _ Htype Hargument).
    unfold bind at 1. rewrite IH. unfold ret. by rewrite logCalls_cons.
Qed.

(** The calls [resolveBatch] of [links.ts] dispatches, each the query of
    [info] rewritten by [transform]. *)
Lemma linksTs_resolveBatch_dispatched cl keys info argument w :
  linkBatchMode (link cl) = false \/ nullable (originalType cl) = true ->
  createNestedArgumentWithVariableNode (linkArgument (link cl)) LinksTs.varName
  = Normal argument ->
  dispatched (LinksTs.resolveBatch cl keys info w).2
  = dispatched w ++ map (proxiedQuery cl info argument) (linkValues cl keys).
Proof.
  intros Htype Hargument.
  pose proof (fun value w =>
                linksTs_basicResolve_with cl value info argument w Htype Hargument)
    as Hone.
  pose proof (fun values w =>
                linksTs_mapM_with cl info argument values w Htype Hargument) as Hmany.
  clear Htype. unfold LinksTs.resolveBatch, linkValues.
  destruct (linkBatchMode (link cl)) eqn:Hbatch.
  - unfold bind at 1. unfold bind at 1. rewrite Hone.
    unfold await, lift at 1. cbn [map].
    destruct (settle _) as [result|e]; [|reflexivity].
    destruct (keyFieldSet (link cl)); cbn [negb].
    + by rewrite linksTs_remapping_keeps_world.
    + reflexivity.
  - unfold bind at 1. unfold bind at 1.
    rewrite Hmany.
    unfold await, lift at 1. cbn [settle].
    destruct (keyFieldSet (link cl)); cbn [negb].
    + by rewrite linksTs_remapping_keeps_world.
    + reflexivity.
Qed.

End BatchQueries.

(** ** The installed resolver and the request-scoped loader *)

Section Resolver.

(** C4.  Whenever the link value read off [source] under the field's
    response alias is falsy, the installed resolver returns that value
    unchanged and leaves the world as it was: nothing is dispatched and no
    loader is created or queued on. *)
Theorem resolve_falsy_returns_value_unchanged
    (source args : JsValue) (context : nat) (info : GraphQLResolveInfo)
    (fieldNode : FieldNode) (others : list FieldNode) (value : JsValue) (w : World) :
  fieldNodes info = fieldNode :: others ->
  getProp source (responseAlias fieldNode) = Normal value ->
  truthy value = false ->
  resolve source args context info w = (Normal (Returned value), w).
Proof.
  intros Hnodes Hvalue Hfalsy. unfold resolve. rewrite Hnodes.
  unfold bind, lift. rewrite Hvalue, Hfalsy. reflexivity.
Qed.

(** A parent object whose link value is [null]: the resolver of
    [author { name }] returns [null] and the world stays empty. *)
Lemma resolve_null_author :
  resolve (JObj [("title", JStr "Hello"); ("author", JNull)]) JUndefined 0
    Sample.nameInfo emptyWorld
  = (Normal (Returned JNull), emptyWorld).
Proof.
  apply (resolve_falsy_returns_value_unchanged _ _ _ _
           {| fnAlias := None; fnName := "author";
              fnSelectionSet := [Field None "name" [] []] |} []);
    reflexivity.
Defined.

Lemma withLoader_twice context dl1 dl2 w :
  withLoader context dl2 (withLoader context dl1 w) = withLoader context dl2 w.
Proof. unfold withLoader. cbn. by rewrite insert_insert_eq. Qed.

(** An invocation that reaches no loader leaves the world as it was. *)
Lemma resolve_without_load source args context info w :
  linkValue source info = None ->
  (resolve source args context info w).2 = w.
Proof.
  unfold linkValue, resolve.
  destruct (fieldNodes info) as [|fieldNode others]; [reflexivity|].
  unfold bind, lift.
  destruct (getProp source (responseAlias fieldNode)) as [value|e]; [|reflexivity].
  by destruct (truthy value).
Qed.

(** An invocation with a truthy link value queues it on the loader of its
    context; the loader it creates when there is none captures its [info]. *)
Lemma resolve_with_load source args context info w value :
  linkValue source info = Some value ->
  (resolve source args context info w).2
  = withLoader context
      match dataLoaders w !! context with
      | Some dataLoader =>
          {| batchInfo := batchInfo dataLoader; queue := queue dataLoader ++ [value] |}
      | None => {| batchInfo := info; queue := [value] |}
      end w.
Proof.
  unfold linkValue, resolve.
  destruct (fieldNodes info) as [|fieldNode others]; [discriminate|].
  unfold bind at 1. unfold lift at 1.
  destruct (getProp source (responseAlias fieldNode)) as [v|e]; [|discriminate].
  destruct (truthy v) eqn:Htruthy; [|discriminate]. intros [= ->]. cbn [negb].
  unfold bind at 1. unfold getLoader at 1.
  destruct (dataLoaders w !! context) as [dataLoader|] eqn:Hfound.
  - unfold bind at 1. unfold ret at 1. unfold load, bind, getLoader, setLoader, ret.
    rewrite Hfound. reflexivity.
  - unfold bind at 1. unfold setLoader at 1. unfold load, bind, getLoader, setLoader, ret.
    cbn [dataLoaders withLoader]. rewrite lookup_insert_eq. cbn [snd batchInfo queue].
    by rewrite withLoader_twice.
Qed.

Lemma resolveAll_cons context source info rest w :
  (resolveAll context ((source, info) :: rest) w).2
  = (resolveAll context rest (resolve source JUndefined context info w).2).2.
Proof.
  cbn [resolveAll]. destruct (resolve source JUndefined context info w) as [r w1].
  cbn [snd]. by destruct (resolveAll context rest w1).
Qed.

(** Once the loader of a context exists, later invocations only queue on
    it: the [info] it captured stays. *)
Lemma resolveAll_existing_loader context calls w dataLoader :
  dataLoaders w !! context = Some dataLoader ->
  (resolveAll context calls w).2
  = withLoader context
      {| batchInfo := batchInfo dataLoader;
         queue := queue dataLoader ++ loadedKeys calls |} w.
Proof.
  revert w dataLoader. induction calls as [|[source info] rest IH]; intros w dataLoader Hfound.
  - cbn. rewrite app_nil_r. destruct w as [d k loaders]. unfold withLoader. cbn in *.
    f_equal. rewrite insert_id; [done|]. by destruct dataLoader.
  - rewrite resolveAll_cons. unfold loadedKeys. cbn [omap list_omap fst snd].
    destruct (linkValue source info) as [value|] eqn:Hvalue.
    + rewrite (resolve_with_load _ _ _ _ _ _ Hvalue), Hfound.
      erewrite IH; [|cbn; apply lookup_insert_eq].
      rewrite withLoader_twice. cbn [batchInfo queue].
      by rewrite <- app_assoc.
    + rewrite (resolve_without_load _ _ _ _ _ Hvalue). by apply IH.
Qed.

Lemma dispatchLoader_existing resolveBatch context dataLoader w :
  dispatchLoader resolveBatch context (withLoader context dataLoader w)
  = (do result <- resolveBatch (queue dataLoader) (batchInfo dataLoader);
     do values <- lift (asArray result);
     ret (map settle values))
      (withLoader context {| batchInfo := batchInfo dataLoader; queue := [] |} w).
Proof.
  unfold dispatchLoader. unfold bind at 1. unfold getLoader at 1.
  cbn [dataLoaders withLoader]. rewrite lookup_insert_eq.
  unfold bind at 1. unfold setLoader at 1. by rewrite withLoader_twice.
Qed.

Lemma resolveAll_fresh_context context calls w :
  dataLoaders w !! context = None ->
  (resolveAll context calls w).2
  = match firstLoadInfo calls with
    | None => w
    | Some first =>
        withLoader context {| batchInfo := first; queue := loadedKeys calls |} w
    end.
Proof.
  revert w. induction calls as [|[source info] rest IH]; intros w Hnone; [reflexivity|].
  unfold firstLoadInfo, loadedKeys in *. cbn [omap list_omap fst snd].
  rewrite resolveAll_cons.
  destruct (linkValue source info) as [value|] eqn:Hvalue.
  - cbn [head]. rewrite (resolve_with_load _ _ _ _ _ _ Hvalue), Hnone.
    erewrite resolveAll_existing_loader; [|cbn; apply lookup_insert_eq].
    by rewrite withLoader_twice.
  - rewrite (resolve_without_load _ _ _ _ _ Hvalue). by apply IH.
Qed.

Lemma dispatchLoader_dispatched resolveBatch context dataLoader w :
  dispatched (dispatchLoader resolveBatch context (withLoader context dataLoader w)).2
  = dispatched
      (resolveBatch (queue dataLoader) (batchInfo dataLoader)
         (withLoader context {| batchInfo := batchInfo dataLoader; queue := [] |} w)).2.
Proof.
  rewrite dispatchLoader_existing. unfold bind at 1.
  destruct (resolveBatch _ _ _) as [[result|e] w']; [|reflexivity].
  unfold bind, lift, ret. by destruct (asArray result).
Qed.

End Resolver.

Section BatchOfARequest.
Context `{Collaborators}.

(** The calls the dispatch of a loader's batch issues, in either file:
    built from the [info] the loader captured. *)
Lemma batch_of_loader cl meanwhile context dataLoader w :
  firstSegment (linkArgument (link cl)) <> "" ->
  let info := batchInfo dataLoader in
  let values := linkValues cl (queue dataLoader) in
  let queued := withLoader context dataLoader w in
  (exists argument,
     createNestedArgumentWithVariableNode (linkArgument (link cl))
       (Part000.extendedVariables cl info).2 = Normal argument
     /\ dispatched (dispatchLoader (Part000.resolveBatch meanwhile cl) context queued).2
        = dispatched w ++ map (builtQuery cl info argument) values)
  /\ (linkBatchMode (link cl) = false \/ nullable (originalType cl) = true ->
      exists argument,
        createNestedArgumentWithVariableNode (linkArgument (link cl)) LinksTs.varName
        = Normal argument
        /\ dispatched (dispatchLoader (LinksTs.resolveBatch cl) context queued).2
           = dispatched w ++ map (proxiedQuery cl info argument) values).
Proof.
  intros Harg info values queued. unfold queued. split.
  - destruct (createNestedArgument_succeeds _ (Part000.extendedVariables cl info).2 Harg)
      as [argument Hargument].
    exists argument. split; [exact Hargument|].
    rewrite dispatchLoader_dispatched.
    by rewrite (part000_resolveBatch_dispatched _ _ _ _ _ _ Hargument).
  - intros Htype.
    destruct (createNestedArgument_succeeds _ LinksTs.varName Harg)
      as [argument Hargument].
    exists argument. split; [exact Hargument|].
    rewrite dispatchLoader_dispatched.
    by rewrite (linksTs_resolveBatch_dispatched _ _ _ _ _ Htype Hargument).
Qed.

(** C10.  In a request context that has no loader yet, the loader is
    created by the first invocation with a truthy link value and captures
    the [info] of that invocation; all later invocations only add their
    keys, so that two runs of invocations that agree on that first [info]
    and on the keys leave the same loader, whatever [info] the later
    invocations carry; and a loader that exists (from an earlier batch of
    the request) keeps the [info] it captured.  The calls a dispatch of the
    loader's batch issues are built from the captured [info] and from
    nothing else of the invocations but their keys: in [part_000] the
    document is the fragments of that [info] followed by one query
    operation with the variable definitions extended from those of that
    [info], whose selection is the link's target field over the selection
    set of that [info] (extended by the key field with [batchMode] and
    [keyField]), and the variables are those of that [info] with the keys
    bound to the chosen variable; in [links.ts] the document, the variables
    and the selection set are those [resolveAsProxy] reads off that
    [info], rewritten by [transform].  With [batchMode] this is one call
    for all keys, without it one call per key. *)
Theorem batch_is_built_from_first_info
    (cl : LinkClosure) (meanwhile : option string) (context : nat)
    (calls : list (JsValue * GraphQLResolveInfo)) (w : World) :
  firstSegment (linkArgument (link cl)) <> "" ->
  let queued := (resolveAll context calls w).2 in
  let values keys := if linkBatchMode (link cl) then [JArr keys] else keys in
  let part000Query info argument value :=
    let parts := getFieldAsQueryParts info in
    let chosen := Part000.extendedVariables cl info in
    {| target := epUrl (targetEndpoint cl);
       document :=
         map DFragment (fragments parts)
         ++ [DOperation
               {| opOperation := query;
                  opName := None;
                  opVariableDefinitions := chosen.1;
                  opSelectionSet :=
                    [Field None (linkField (link cl)) [argument]
                       (if linkBatchMode (link cl) && keyFieldSet (link cl)
                        then (Part000.extendedSelection cl info).2
                        else selectionSet parts)] |}];
       callVariables := <[chosen.2 := value]> (variableValues parts) |} in
  let linksTsQuery info argument value :=
    let caller := proxyQuery info in
    {| target := epUrl (targetEndpoint cl);
       document :=
         map DFragment (pqFragments caller)
         ++ [DOperation
               {| opOperation := query;
                  opName := opName (pqOperation caller);
                  opVariableDefinitions :=
                    opVariableDefinitions (pqOperation caller)
                    ++ [createVariableDefinitionNode LinksTs.varName
                          (if linkBatchMode (link cl)
                           then GraphQLNonNull
                                  (GraphQLList (GraphQLNonNull (originalType cl)))
                           else originalType cl)];
                  opSelectionSet :=
                    [Field None (linkField (link cl)) [argument]
                       (opSelectionSet (pqOperation caller)
                        ++ (if keyFieldSet (link cl)
                            then [Field None (keyFieldName (link cl)) [] []]
                            else []))] |}];
       callVariables := <[LinksTs.varName := value]> (pqVariables caller) |} in
  let builtFrom info keys :=
    (exists argument,
       createNestedArgumentWithVariableNode (linkArgument (link cl))
         (Part000.extendedVariables cl info).2 = Normal argument
       /\ dispatched
            (dispatchLoader (Part000.resolveBatch meanwhile cl) context queued).2
          = dispatched w ++ map (part000Query info argument) (values keys))
    /\ (linkBatchMode (link cl) = false \/ nullable (originalType cl) = true ->
        exists argument,
          createNestedArgumentWithVariableNode (linkArgument (link cl)) LinksTs.varName
          = Normal argument
          /\ dispatched (dispatchLoader (LinksTs.resolveBatch cl) context queued).2
             = dispatched w ++ map (linksTsQuery info argument) (values keys)) in
  (forall first,
     dataLoaders w !! context = None ->
     firstLoadInfo calls = Some first ->
     dataLoaders queued !! context
     = Some {| batchInfo := first; queue := loadedKeys calls |}
     /\ (forall calls',
           firstLoadInfo calls' = Some first -> loadedKeys calls' = loadedKeys calls ->
           (resolveAll context calls' w).2 = queued)
     /\ builtFrom first (loadedKeys calls))
  /\ (forall dataLoader,
        dataLoaders w !! context = Some dataLoader ->
        dataLoaders queued !! context
        = Some {| batchInfo := batchInfo dataLoader;
                  queue := queue dataLoader ++ loadedKeys calls |}
        /\ builtFrom (batchInfo dataLoader) (queue dataLoader ++ loadedKeys calls)).
Proof.
  intros Harg queued values part000Query linksTsQuery builtFrom. split.
  - intros first Hnone Hfirst.
    assert (queued
            = withLoader context {| batchInfo := first; queue := loadedKeys calls |} w)
      as Hq.
    { unfold queued. by rewrite (resolveAll_fresh_context _ _ _ Hnone), Hfirst. }
    split; [|split].
    + rewrite Hq. cbn. apply lookup_insert_eq.
    + intros calls' Hfirst' Hkeys'.
      by rewrite Hq, (resolveAll_fresh_context _ _ _ Hnone), Hfirst', Hkeys'.
    + unfold builtFrom. rewrite Hq.
      exact (batch_of_loader cl meanwhile context
               {| batchInfo := first; queue := loadedKeys calls |} w Harg).
  - intros dataLoader Hfound.
    assert (queued
            = withLoader context
                {| batchInfo := batchInfo dataLoader;
                   queue := queue dataLoader ++ loadedKeys calls |} w) as Hq.
    { unfold queued. by apply resolveAll_existing_loader. }
    split.
    + rewrite Hq. cbn. apply lookup_insert_eq.
    + unfold builtFrom. rewrite Hq.
      exact (batch_of_loader cl meanwhile context
               {| batchInfo := batchInfo dataLoader;
                  queue := queue dataLoader ++ loadedKeys calls |} w Harg).
Qed.

End BatchOfARequest.
(** Three posts resolved in one request context: the first has no author,
    the second is resolved under [author { name }], the third under
    [author { id }].  The loader captures the [info] of the second
    invocation, and the one call of the batch, in either file, selects
    [name] for both keys; [id], which the third invocation selects, is
    asked of no backend. *)
Lemma batch_of_three_posts :
  let H := Sample.sampleCollaborators in
  let cl := Sample.authorClosure (Sample.authorLink "usersByIds" "ids" true None) in
  let idInfo := Sample.callerInfo [Field None "id" [] []] [] ∅ in
  let calls :=
    [ (JObj [("author", JNull)], idInfo);
      (JObj [("author", JNum 1)], Sample.nameInfo);
      (JObj [("author", JNum 2)], idInfo) ] in
  let queued := (resolveAll 0 calls emptyWorld).2 in
  let listOfInt := NonNullTypeNode (ListTypeNode (NonNullTypeNode (NamedTypeNode "Int"))) in
  let batchQuery variable :=
    {| target := "http://users/graphql";
       document :=
         [DOperation
            {| opOperation := query;
               opName := None;
               opVariableDefinitions := [VariableDefinition variable listOfInt];
               opSelectionSet :=
                 [Field None "usersByIds" [Argument "ids" (VariableNode variable)]
                    [Field None "name" [] []]] |}];
       callVariables := {[variable := JArr [JNum 1; JNum 2]]} |} in
  dataLoaders queued !! 0
  = Some {| batchInfo := Sample.nameInfo; queue := [JNum 1; JNum 2] |}
  /\ dispatched (dispatchLoader (Part000.resolveBatch None cl) 0 queued).2
     = [batchQuery "ids"]
  /\ dispatched (dispatchLoader (LinksTs.resolveBatch cl) 0 queued).2
     = [batchQuery "param"]
  /\ (dispatchLoader (Part000.resolveBatch None cl) 0 queued).1
     = Normal [ Normal (JObj [("name", JStr "Ada")]);
                Normal (JObj [("name", JStr "Bob")]) ].
Proof.
  intros H cl idInfo calls queued listOfInt batchQuery.
  destruct (proj1 (batch_is_built_from_first_info cl None 0 calls emptyWorld
                     ltac:(discriminate)) Sample.nameInfo eq_refl eq_refl)
    as (Hloader & _ & (argument & Hargument & Hpart000) & Hlinks).
  destruct (Hlinks (or_intror eq_refl)) as (argument' & Hargument' & HlinksTs).
  injection Hargument as <-. injection Hargument' as <-.
  split; [exact Hloader|]. split; [|split].
  - etransitivity; [exact Hpart000|]. vm_compute. reflexivity.
  - etransitivity; [exact HlinksTs|]. vm_compute. reflexivity.
  - vm_compute. reflexivity.
Defined.

(** ** The abstract-type resolver *)

Section AbstractTypes.
Import TypeResolvers.

(** C5.  Both hooks for abstract types install [resolveType].  Applied to a
    resolved value, it fails exactly when the discriminator [__typename] is
    absent on the value, or [context.findType] finds no type for it, or the
    type found is not an object type; otherwise it returns the type found.
    For an object type, the [isTypeOf] check is removed. *)
Theorem resolveType_fails_iff_no_object_type
    (config : AbstractTypeConfig) (context : SchemaTransformationContext)
    (obj : JsValue) (objectConfig : GraphQLObjectTypeConfig) :
  let resolver := resolveType (atcName config) context in
  atcResolveType (transformInterfaceType config context) = Some resolver
  /\ atcResolveType (transformUnionType config context) = Some resolver
  /\ (isThrow (resolver obj) = true <->
        hasTypename obj = false
        \/ findType context (typenameOf obj) = None
        \/ exists type, findType context (typenameOf obj) = Some type
                        /\ isObjectType type = false)
  /\ (forall type,
        hasTypename obj = true ->
        findType context (typenameOf obj) = Some type ->
        isObjectType type = true ->
        resolver obj = Normal type)
  /\ isTypeOf (transformObjectType objectConfig) = None
  /\ otcName (transformObjectType objectConfig) = otcName objectConfig.
Proof.
  intros resolver. split; [reflexivity|]. split; [reflexivity|].
  split; [|split; [|split; reflexivity]].
  - unfold resolver, resolveType, hasTypename, typenameOf.
    destruct obj as [| | | | | |props|]; cbn;
      try (split; [intros _; by left|done]).
    destruct (assoc "__typename" props) as [typename|] eqn:Hassoc; cbn.
    + destruct (findType context typename) as [type|] eqn:Hfound; cbn.
      * destruct (isObjectType type) eqn:Hobject; cbn.
        -- split; [done|]. intros [?|[?|(type' & [= <-] & ?)]]; congruence.
        -- split; [|done]. intros _. right. right. by exists type.
      * split; [|done]. intros _. right. by left.
    + split; [|done]. intros _. by left.
  - intros type Hpresent Hfound Hobject.
    unfold resolver, resolveType, hasTypename, typenameOf in *.
    destruct obj as [| | | | | |props|]; try discriminate. cbn in *.
    rewrite Hpresent.
    destruct (assoc "__typename" props) as [typename|]; cbn in *.
    + by rewrite Hfound, Hobject.
    + discriminate.
Qed.

End AbstractTypes.

(** ** The empty argument path *)

Section EmptyArgument.
Context `{Collaborators}.

Lemma installLink_never_checks_argument endpoints schema config context endpointName name :
  installLink endpoints schema config context endpointName name
  <> Throw ArgumentMustNotBeEmpty.
Proof.
  unfold installLink.
  destruct (endpointMap endpoints !! endpointName) as [endpoint|]; [|discriminate].
  destruct (epLinks endpoint !! _) as [link|]; [|discriminate].
  destruct (endpointMap endpoints !! linkEndpoint link) as [target|]; [|discriminate].
  destruct (queryFieldType schema (epName target)) as [type|e] eqn:Hquery.
  - destruct (asObjectType schema type) as [endpointQueryType|]; [|discriminate].
    destruct (typeFields endpointQueryType !! linkField link); discriminate.
  - unfold queryFieldType in Hquery.
    destruct (queryType schema ≫= _) as [q|]; [|congruence].
    destruct (typeFields q !! epName target); congruence.
Qed.

(** C7, as the code has it.  An argument path whose first segment is empty
    (the empty path among them) is not a composition-time error:
    [transformField] never raises "Argument must not be empty", in either
    file.  The failure comes at resolution time: every call of
    [basicResolve] for the link hands back a rejected promise and
    dispatches no backend call.  The promise is rejected with "Argument
    must not be empty", except in [links.ts] for a [batchMode] link on a
    field whose own type is non-null, where the construction of the
    variable type fails before the argument is looked at. *)
Theorem empty_argument_is_raised_at_resolution
    (endpoints : list EndpointConfig) (schema : GraphQLSchema)
    (config : GraphQLNamedFieldConfig) (context : FieldTransformationContext)
    (cl : LinkClosure) (value : JsValue) (info : GraphQLResolveInfo) (w : World) :
  firstSegment (linkArgument (link cl)) = "" ->
  LinksTs.transformField endpoints schema config context <> Throw ArgumentMustNotBeEmpty
  /\ Part000.transformField endpoints schema config context <> Throw ArgumentMustNotBeEmpty
  /\ LinksTs.basicResolve cl value info w
     = (Normal (JPromise
                  (Throw (if linkBatchMode (link cl) && negb (nullable (originalType cl))
                          then NonNullOfNonNull
                          else ArgumentMustNotBeEmpty))), w)
  /\ (Part000.basicResolve cl value info w).1
     = Normal (JPromise (Throw ArgumentMustNotBeEmpty))
  /\ dispatched (Part000.basicResolve cl value info w).2 = dispatched w.
Proof.
  intros Hempty. split; [|split; [|split; [|split]]].
  - unfold LinksTs.transformField.
    destruct (LinksTs.splitTypeName _ _) as [[endpointName name]|]; [|discriminate].
    apply installLink_never_checks_argument.
  - unfold Part000.transformField.
    destruct (Part000.splitTypeName _ _) as [[endpointName name]|]; [|discriminate].
    apply installLink_never_checks_argument.
  - unfold LinksTs.basicResolve, async, LinksTs.resolveAsProxy, LinksTs.transform.
    rewrite linksTs_varType, (createNestedArgument_throws _ _ Hempty).
    by destruct (linkBatchMode (link cl) && negb (nullable (originalType cl))).
  - unfold Part000.basicResolve, async.
    destruct (Part000.extendedVariables cl info) as [definitions varName].
    destruct (Part000.extendedSelection cl info) as [alias newSelectionSet].
    unfold bind, lift, ret, setKeyFieldAlias.
    rewrite (createNestedArgument_throws _ _ Hempty).
    by destruct (linkBatchMode (link cl) && keyFieldSet (link cl)).
  - unfold Part000.basicResolve, async.
    destruct (Part000.extendedVariables cl info) as [definitions varName].
    destruct (Part000.extendedSelection cl info) as [alias newSelectionSet].
    unfold bind, lift, ret, setKeyFieldAlias.
    rewrite (createNestedArgument_throws _ _ Hempty).
    by destruct (linkBatchMode (link cl) && keyFieldSet (link cl)).
Qed.

End EmptyArgument.

(** The link [Post.author] declared with the empty argument path, in the
    sample deployment. *)
Lemma empty_argument_of_sample_link :
  let link := Sample.authorLink "user" "" false None in
  let endpoints := [Sample.postsEndpoint link; Sample.usersEndpoint] in
  let cl := Sample.authorClosure link in
  let H := Sample.sampleCollaborators in
  LinksTs.transformField endpoints Sample.mergedSchema Sample.authorConfig
    Sample.postContext <> Throw ArgumentMustNotBeEmpty
  /\ Part000.transformField endpoints Sample.mergedSchema Sample.authorConfig
       Sample.postContext <> Throw ArgumentMustNotBeEmpty
  /\ LinksTs.basicResolve cl (JNum 1) Sample.nameInfo emptyWorld
     = (Normal (JPromise (Throw ArgumentMustNotBeEmpty)), emptyWorld)
  /\ (Part000.basicResolve cl (JNum 1) Sample.nameInfo emptyWorld).1
     = Normal (JPromise (Throw ArgumentMustNotBeEmpty))
  /\ dispatched (Part000.basicResolve cl (JNum 1) Sample.nameInfo emptyWorld).2
     = dispatched emptyWorld.
Proof.
  intros link endpoints cl H.
  exact (empty_argument_is_raised_at_resolution (H := H) endpoints Sample.mergedSchema
           Sample.authorConfig Sample.postContext cl (JNum 1) Sample.nameInfo emptyWorld
           eq_refl).
Defined.

(** C7, as the specification states it, fails.  With the empty argument path
    in the declaration of [Post.author], [transformField] of either file
    completes and installs the link resolver: composition does not abort.
    A client request that resolves [author] for a post with author [1] then
    gets "Argument must not be empty" for that field. *)
Lemma empty_argument_passes_composition :
  let H := Sample.sampleCollaborators in
  let link := Sample.authorLink "user" "" false None in
  let endpoints := [Sample.postsEndpoint link; Sample.usersEndpoint] in
  let cl := Sample.authorClosure link in
  let installed :=
    {| cfgName := "author"; cfgType := NamedType "users_User";
       cfgResolve := LinkResolver cl |} in
  let request :=
    (resolve (JObj [("author", JNum 1)]) JUndefined 0 Sample.nameInfo emptyWorld).2 in
  LinksTs.transformField endpoints Sample.mergedSchema Sample.authorConfig
    Sample.postContext = Normal installed
  /\ Part000.transformField endpoints Sample.mergedSchema Sample.authorConfig
       Sample.postContext = Normal installed
  /\ (dispatchLoader (LinksTs.resolveBatch cl) 0 request).1
     = Normal [Throw ArgumentMustNotBeEmpty]
  /\ (dispatchLoader (Part000.resolveBatch None cl) 0 request).1
     = Normal [Throw ArgumentMustNotBeEmpty].
Proof. vm_compute. repeat split. Qed.
(** ** The schema merger *)

Section Merger.
Import SchemaMerger.
Context {GraphQLObjectType GraphQLFieldResolver GraphQLDirective : Type}.
Context (isNativeDirective : GraphQLDirective -> bool).
Context (specifiedDirectives : list GraphQLDirective).

Abbreviation FieldConfig := (@FieldConfig GraphQLObjectType GraphQLFieldResolver).
Abbreviation NamedSchema :=
  (@NamedSchema GraphQLObjectType GraphQLFieldResolver GraphQLDirective).
Abbreviation MergedSchema :=
  (@MergedSchema GraphQLObjectType GraphQLFieldResolver GraphQLDirective).

Context (schemaAssertions : MergedSchema -> option Error).

Lemma collectFields_snoc (types : list FieldConfig) fc :
  collectFields (types ++ [fc])
  = match fcType fc with
    | None => collectFields types
    | Some type =>
        setField (collectFields types) (fcNamespace fc)
          {| rfType := type; rfResolve := fcResolver fc |}
    end.
Proof. unfold collectFields. by rewrite foldl_app. Qed.

Lemma setField_lookup (fields : gmap string (@RootField GraphQLObjectType GraphQLFieldResolver))
    key field ns :
  setField fields key field !! ns
  = if String.eqb key "__proto__" then fields !! ns
    else if String.eqb key ns then Some field else fields !! ns.
Proof.
  unfold setField. destruct (String.eqb key "__proto__"); [reflexivity|].
  destruct (String.eqb_spec key ns) as [->|Hne].
  - apply lookup_insert_eq.
  - by apply lookup_insert_ne.
Qed.

(** Every field comes from a configuration of that namespace, and no field
    is named [__proto__]. *)
Lemma collectFields_sound (types : list FieldConfig) ns f :
  collectFields types !! ns = Some f ->
  ns <> "__proto__"
  /\ exists fc, fc ∈ types /\ fcNamespace fc = ns /\ contributes fc f.
Proof.
  induction types as [|fc types IH] using rev_ind; [done|].
  rewrite collectFields_snoc.
  assert (collectFields types !! ns = Some f ->
          ns <> "__proto__"
          /\ exists fc', fc' ∈ types ++ [fc] /\ fcNamespace fc' = ns /\ contributes fc' f)
    as Hearlier.
  { intros Hf. destruct (IH Hf) as (Hns & fc' & Hin & Hfc & Hc).
    split; [done|]. exists fc'. split; [apply elem_of_app; by left|done]. }
  destruct (fcType fc) as [type|] eqn:Htype; [|exact Hearlier].
  rewrite setField_lookup.
  destruct (String.eqb_spec (fcNamespace fc) "__proto__") as [Hproto|Hproto];
    [exact Hearlier|].
  destruct (String.eqb_spec (fcNamespace fc) ns) as [<-|Hne]; [|exact Hearlier].
  intros [= <-]. split; [done|].
  exists fc. split; [apply elem_of_app; right; by apply list_elem_of_singleton|]. by split.
Qed.

(** With pairwise different namespaces, every configuration with a type
    and a namespace other than [__proto__] has its field. *)
Lemma collectFields_complete (types : list FieldConfig) fc f :
  NoDup (map fcNamespace types) ->
  fc ∈ types -> contributes fc f -> fcNamespace fc <> "__proto__" ->
  collectFields types !! fcNamespace fc = Some f.
Proof.
  induction types as [|fc' types IH] using rev_ind; [by intros _ ?%elem_of_nil|].
  rewrite map_app, collectFields_snoc. cbn [map].
  intros Hnodup Hin [Htype Hresolver] Hproto.
  apply NoDup_app in Hnodup as (Hnodup & Hfresh & _).
  apply elem_of_app in Hin as [Hin|Hin].
  - assert (fcNamespace fc' <> fcNamespace fc) as Hne.
    { intros Heq. apply (Hfresh (fcNamespace fc)).
      - apply list_elem_of_fmap. by exists fc.
      - rewrite Heq. by apply list_elem_of_singleton. }
    destruct (fcType fc'); [|by apply IH].
    rewrite setField_lookup.
    destruct (String.eqb (fcNamespace fc') "__proto__"); [by apply IH|].
    destruct (String.eqb_spec (fcNamespace fc') (fcNamespace fc)); [done|by apply IH].
  - apply list_elem_of_singleton in Hin as ->. rewrite Htype, setField_lookup.
    destruct (String.eqb_spec (fcNamespace fc') "__proto__"); [done|].
    rewrite String.eqb_refl. f_equal. destruct f. cbn in *. by rewrite Hresolver.
Qed.

Lemma collectFields_size (types : list FieldConfig) :
  NoDup (map fcNamespace types) ->
  "__proto__" ∉ map fcNamespace types ->
  size (collectFields types)
  = length (List.filter (fun fc => bool_decide (is_Some (fcType fc))) types).
Proof.
  induction types as [|fc types IH] using rev_ind; [done|].
  rewrite map_app, collectFields_snoc, List.filter_app, length_app. cbn [map].
  intros Hnodup Hproto. apply NoDup_app in Hnodup as (Hnodup & Hfresh & _).
  assert ("__proto__" ∉ map fcNamespace types) as Hproto'.
  { intros Hin. apply Hproto, elem_of_app. by left. }
  assert (fcNamespace fc <> "__proto__") as Hfc.
  { intros Heq. apply Hproto, elem_of_app. right. rewrite Heq.
    by apply list_elem_of_singleton. }
  destruct (fcType fc) as [type|] eqn:Htype; cbn; rewrite Htype; cbn.
  - unfold setField. destruct (String.eqb_spec (fcNamespace fc) "__proto__"); [done|].
    rewrite map_size_insert_None, (IH Hnodup Hproto'); [lia|].
    destruct (collectFields types !! fcNamespace fc) as [f|] eqn:Hf; [|done].
    destruct (collectFields_sound _ _ _ Hf) as (_ & fc' & Hin & Hns & _).
    exfalso. apply (Hfresh (fcNamespace fc)); [|by apply list_elem_of_singleton].
    apply list_elem_of_fmap. by exists fc'.
  - rewrite (IH Hnodup Hproto'). lia.
Qed.

(** A root type is absent exactly when no configuration adds a field: each
    has no type, or the namespace [__proto__]. *)
Lemma createRootFieldMaybe_absent name (types : list FieldConfig) :
  createRootFieldMaybe name types = None
  <-> forall fc, fc ∈ types -> fcType fc = None \/ fcNamespace fc = "__proto__".
Proof.
  unfold createRootFieldMaybe.
  destruct (decide (size (collectFields types) = 0)) as [Hsize|Hsize].
  - split; [|done]. intros _ fc Hin.
    apply map_size_empty_iff in Hsize.
    destruct (fcType fc) as [type|] eqn:Htype; [|by left]. right.
    destruct (String.eqb_spec (fcNamespace fc) "__proto__") as [|Hproto]; [done|].
    exfalso. clear -Hsize Hin Htype Hproto.
    induction types as [|fc' types IH] using rev_ind; [by apply elem_of_nil in Hin|].
    rewrite collectFields_snoc in Hsize.
    apply elem_of_app in Hin as [Hin|Hin].
    + destruct (fcType fc'); [|by apply IH].
      unfold setField in Hsize.
      destruct (String.eqb (fcNamespace fc') "__proto__"); [by apply IH|].
      by apply insert_non_empty in Hsize.
    + apply list_elem_of_singleton in Hin as ->. rewrite Htype in Hsize.
      unfold setField in Hsize.
      destruct (String.eqb_spec (fcNamespace fc') "__proto__"); [done|].
      by apply insert_non_empty in Hsize.
  - split; [done|]. intros Hnone. exfalso. apply Hsize.
    apply map_size_empty_iff, map_eq. intros ns. rewrite lookup_empty.
    destruct (collectFields types !! ns) as [f|] eqn:Hf; [|done].
    destruct (collectFields_sound _ _ _ Hf) as (Hproto & fc & Hin & Hns & Htype & _).
    destruct (Hnone fc Hin) as [Hnotype|Hns']; congruence.
Qed.

Lemma createRootFieldMaybe_fields name (types : list FieldConfig) :
  fieldsOf (createRootFieldMaybe name types) = collectFields types.
Proof.
  unfold createRootFieldMaybe.
  destruct (decide (size (collectFields types) = 0)) as [Hsize|Hsize]; [|done].
  cbn. symmetry. by apply map_size_empty_iff.
Qed.

(** What [mergeSchemas] hands to [new GraphQLSchema], by its parts. *)
Lemma mergeSchemas_config (schemas : list NamedSchema) :
  mergeSchemas isNativeDirective specifiedDirectives schemaAssertions schemas
  = newGraphQLSchema schemaAssertions
      {| msQuery :=
           createRootFieldMaybe "Query"
             (map (fun s => {| fcNamespace := namespace s;
                               fcType := getQueryType (schema s);
                               fcResolver := queryResolver s |}) schemas);
         msMutation :=
           createRootFieldMaybe "Mutation"
             (map (fun s => {| fcNamespace := namespace s;
                               fcType := getMutationType (schema s);
                               fcResolver := mutationResolver s |}) schemas);
         msSubscription :=
           createRootFieldMaybe "Subscription"
             (map (fun s => {| fcNamespace := namespace s;
                               fcType := getSubscriptionType (schema s);
                               fcResolver := subscriptionResolver s |}) schemas);
         msDirectives :=
           foldl (fun a b => a ++ b) []
             (map (fun s => filter (fun d => isNativeDirective d = false)
                              (getDirectives (schema s))) schemas)
           ++ specifiedDirectives |}.
Proof. reflexivity. Qed.

(** A schema that [new GraphQLSchema] builds is the configuration it was
    given. *)
Lemma newGraphQLSchema_built (config merged : MergedSchema) :
  newGraphQLSchema schemaAssertions config = Normal merged -> merged = config.
Proof.
  unfold newGraphQLSchema. destruct (msQuery config); [|discriminate].
  destruct (schemaAssertions config); [discriminate|]. by intros [= <-].
Qed.

(** C8, as the code has it.  For source schemas with pairwise different
    namespaces, none of them [__proto__]: [mergeSchemas] hands to
    [new GraphQLSchema] a configuration whose [Query] type has exactly one
    field per source schema that has a query type, under that schema's
    namespace, with the schema's query type and resolver, and whose
    mutation (subscription) root is absent exactly when no source schema
    has a mutation (subscription) type.  When at least one source schema
    has a query type and the constructor's further assertions pass, that
    configuration is the schema [mergeSchemas] yields; when no source
    schema has a query type, the [Query] type is absent, the constructor
    throws and no schema is yielded. *)
Theorem mergeSchemas_one_field_per_namespace (schemas : list NamedSchema) :
  NoDup (map namespace schemas) ->
  "__proto__" ∉ map namespace schemas ->
  let result :=
    mergeSchemas isNativeDirective specifiedDirectives schemaAssertions schemas in
  exists config,
    ((exists s, s ∈ schemas /\ is_Some (getQueryType (schema s))) ->
     schemaAssertions config = None -> result = Normal config)
    /\ ((forall s, s ∈ schemas -> getQueryType (schema s) = None) ->
        result = Throw SchemaQueryMustBeObjectType)
    /\ (forall merged, result = Normal merged -> merged = config)
    /\ (forall ns f,
          fieldsOf (msQuery config) !! ns = Some f <->
          exists s, s ∈ schemas /\ namespace s = ns
                    /\ getQueryType (schema s) = Some (rfType f)
                    /\ queryResolver s = rfResolve f)
    /\ size (fieldsOf (msQuery config))
       = length (List.filter (fun s => bool_decide (is_Some (getQueryType (schema s))))
                   schemas)
    /\ (forall root, msQuery config = Some root -> rootName root = "Query")
    /\ (msMutation config = None <->
        forall s, s ∈ schemas -> getMutationType (schema s) = None)
    /\ (msSubscription config = None <->
        forall s, s ∈ schemas -> getSubscriptionType (schema s) = None).
Proof.
  intros Hnodup Hproto result. unfold result. rewrite mergeSchemas_config.
  set (queries := map (fun s => {| fcNamespace := namespace s;
                                   fcType := getQueryType (schema s);
                                   fcResolver := queryResolver s |}) schemas).
  match goal with |- context [newGraphQLSchema _ ?c] => exists c end.
  cbn [msQuery msMutation msSubscription].
  assert (NoDup (map fcNamespace queries)) as Hq.
  { unfold queries. by rewrite map_map. }
  assert (forall (get : NamedSchema -> option GraphQLObjectType)
                 (resolver : NamedSchema -> option GraphQLFieldResolver) name,
            createRootFieldMaybe name
              (map (fun s => {| fcNamespace := namespace s; fcType := get s;
                                fcResolver := resolver s |}) schemas) = None
            <-> forall s, s ∈ schemas -> get s = None) as Habsent.
  { intros get resolver name. rewrite createRootFieldMaybe_absent. split.
    - intros Hnone s Hin.
      destruct (Hnone {| fcNamespace := namespace s; fcType := get s;
                         fcResolver := resolver s |}) as [Htype|Hns]; [|done|].
      + apply list_elem_of_fmap. by exists s.
      + exfalso. apply Hproto. cbn in Hns. rewrite <- Hns.
        apply list_elem_of_fmap. by exists s.
    - intros Hnone fc Hin. apply list_elem_of_fmap in Hin as (s & -> & Hin).
      left. by apply Hnone. }
  split; [|split; [|split; [|split; [|split; [|split; [|split]]]]]].
  - intros (s & Hin & Htyped) Hpass. unfold newGraphQLSchema. rewrite Hpass.
    cbn [msQuery].
    destruct (createRootFieldMaybe "Query" queries) as [root|] eqn:Hroot; [done|].
    exfalso.
    pose proof (proj1 (Habsent (fun s => getQueryType (schema s)) queryResolver "Query")
                  Hroot s Hin) as Hnone.
    cbn in Hnone. rewrite Hnone in Htyped. by destruct Htyped.
  - intros Hnone. unfold newGraphQLSchema. cbn [msQuery]. unfold queries.
    by rewrite (proj2 (Habsent (fun s => getQueryType (schema s)) queryResolver "Query")
                  Hnone).
  - apply newGraphQLSchema_built.
  - intros ns f. rewrite createRootFieldMaybe_fields. split.
    + intros Hf.
      destruct (collectFields_sound _ _ _ Hf) as (_ & fc & Hin & Hns & Htype & Hres).
      apply list_elem_of_fmap in Hin as (s & -> & Hin). by exists s.
    + intros (s & Hin & <- & Htype & Hres).
      apply (collectFields_complete queries
               {| fcNamespace := namespace s; fcType := getQueryType (schema s);
                  fcResolver := queryResolver s |}); [done| |done|].
      * apply list_elem_of_fmap. by exists s.
      * cbn. intros Heq. apply Hproto. rewrite <- Heq.
        apply list_elem_of_fmap. by exists s.
  - rewrite createRootFieldMaybe_fields, (collectFields_size _ Hq).
    + unfold queries. clear. induction schemas as [|s rest IH]; [done|].
      cbn. destruct (bool_decide _); cbn; by rewrite IH.
    + unfold queries. by rewrite map_map.
  - unfold createRootFieldMaybe. intros root.
    destruct (decide _); [done|]. by intros [= <-].
  - apply (Habsent (fun s => getMutationType (schema s)) mutationResolver).
  - apply (Habsent (fun s => getSubscriptionType (schema s)) subscriptionResolver).
Qed.

End Merger.

(** C8, as the specification states it, fails for a set of backends none of
    which has a query type: the [posts] backend alone, with a mutation type
    only, has pairwise different namespaces, yet [mergeSchemas] yields no
    schema at all, where the claim has a schema whose [Query] type has no
    field.  It also fails for a backend under the namespace [__proto__]:
    of two backends with a query type each, the merged [Query] type has the
    field [users] only. *)
Lemma mergeSchemas_without_query_root :
  let merge :=
    SchemaMerger.mergeSchemas Sample.nativeDirective ["skip"; "include"]
      (fun _ => None) in
  NoDup (map SchemaMerger.namespace Sample.mutationOnlySchemas)
  /\ merge Sample.mutationOnlySchemas = Throw SchemaQueryMustBeObjectType
  /\ NoDup (map SchemaMerger.namespace Sample.protoSchemas)
  /\ exists merged,
       merge Sample.protoSchemas = Normal merged
       /\ size (SchemaMerger.fieldsOf (SchemaMerger.msQuery merged)) = 1
       /\ SchemaMerger.fieldsOf (SchemaMerger.msQuery merged) !! "__proto__" = None.
Proof.
  split; [apply NoDup_singleton|]. split; [vm_compute; reflexivity|].
  split.
  - apply NoDup_cons_2; [|apply NoDup_singleton].
    intros Hin. by apply list_elem_of_singleton in Hin.
  - eexists. split; [vm_compute; reflexivity|]. split; vm_compute; reflexivity.
Qed.

(** ** The statements above on the sample deployment *)

Section OnTheSample.
Import Sample.
#[local] Existing Instance sampleCollaborators.

(** The prefixes [posts_] and [users_] are unambiguous. *)
Lemma sample_prefixes_unambiguous :
  unambiguousPrefixes [postsEndpoint (authorLink "user" "id" false None); usersEndpoint].
Proof.
  intros e1 e2 H1 H2.
  apply elem_of_cons in H1 as [->|H1]; [|apply list_elem_of_singleton in H1 as ->];
    (apply elem_of_cons in H2 as [->|H2]; [|apply list_elem_of_singleton in H2 as ->]);
    vm_compute; intros; (reflexivity || discriminate).
Qed.

(** Routing on the sample: [users_User] is the type [User] of [users]. *)
Lemma splitTypeName_users_User :
  let endpoints := [postsEndpoint (authorLink "user" "id" false None); usersEndpoint] in
  LinksTs.splitTypeName endpoints (String.append (prefixOf usersEndpoint) "User")
  = Some ("users", "User")
  /\ (forall mergedName,
        LinksTs.splitTypeName endpoints mergedName = route endpoints mergedName).
Proof.
  intros endpoints.
  destruct (proj2 (splitTypeName_first_match_inverts_prefixing endpoints)
              sample_prefixes_unambiguous) as [Hinverse Hroute].
  split; [|exact Hroute].
  apply (Hinverse usersEndpoint "User").
  apply elem_of_cons. right. by apply list_elem_of_singleton.
Defined.

(** The merger on the two sample schemas: a schema is yielded, its [Query]
    type has the fields [users] and [posts], and it has a mutation root
    (of [posts]) and no subscription root. *)
Lemma mergeSchemas_of_sample :
  exists merged,
    SchemaMerger.mergeSchemas nativeDirective ["skip"; "include"] (fun _ => None)
      sourceSchemas = Normal merged
    /\ (forall ns f,
          SchemaMerger.fieldsOf (SchemaMerger.msQuery merged) !! ns = Some f <->
          exists s, s ∈ sourceSchemas /\ SchemaMerger.namespace s = ns
                    /\ SchemaMerger.getQueryType (SchemaMerger.schema s)
                       = Some (SchemaMerger.rfType f)
                    /\ SchemaMerger.queryResolver s = SchemaMerger.rfResolve f)
    /\ size (SchemaMerger.fieldsOf (SchemaMerger.msQuery merged)) = 2
    /\ SchemaMerger.msMutation merged <> None
    /\ SchemaMerger.msSubscription merged = None.
Proof.
  assert (NoDup (map SchemaMerger.namespace sourceSchemas)) as Hnodup.
  { cbn. apply NoDup_cons_2; [|apply NoDup_singleton].
    intros Hin. by apply list_elem_of_singleton in Hin. }
  assert ("__proto__" ∉ map SchemaMerger.namespace sourceSchemas) as Hproto.
  { cbn. intros Hin. apply elem_of_cons in Hin as [Hin|Hin]; [discriminate|].
    by apply list_elem_of_singleton in Hin. }
  destruct (mergeSchemas_one_field_per_namespace nativeDirective ["skip"; "include"]
              (fun _ => None) sourceSchemas Hnodup Hproto)
    as (config & Hyield & _ & _ & Hfields & Hsize & _ & Hmutation & Hsubscription).
  exists config. split; [|split; [exact Hfields|split; [exact Hsize|split]]].
  - apply Hyield; [|reflexivity].
    eexists. split; [by apply list_elem_of_here|]. cbn. eauto.
  - intros Hnone.
    pose proof (proj1 Hmutation Hnone _
                  (list_elem_of_further _ _ _ (list_elem_of_here _ _))) as Hbad.
    discriminate Hbad.
  - apply (proj2 Hsubscription). intros s Hin.
    apply elem_of_cons in Hin as [->|Hin]; [reflexivity|].
    by apply list_elem_of_singleton in Hin as ->.
Defined.

(** A batch of [part_000] on the sample: the keys [3], [7], [1] against a
    backend that answers in table order and knows no user [7]; no other
    batch runs meanwhile.  When another batch of the link, whose caller
    selects [id: name], writes its alias [id0] meanwhile, no item is found
    under that alias and every key maps to [undefined]. *)
Lemma part000_remap_of_three_keys :
  let cl := authorClosure (authorLink "usersByIds" "filter.id" true (Some "id")) in
  let keys := [JNum 3; JNum 7; JNum 1] in
  let alias := (Part000.extendedSelection cl nameInfo).1 in
  (exists call,
    carries cl nameInfo (JArr keys) call
    /\ (Part000.resolveBatch None cl keys nameInfo emptyWorld).2
       = logCall call (withKeyFieldAlias alias emptyWorld)
    /\ forall obj items,
        execute call = Normal obj ->
        getProp obj (linkField (link cl)) = Normal (JArr items) ->
        Forall (fun item => isObject item = true) items ->
        exists out,
          (Part000.resolveBatch None cl keys nameInfo emptyWorld).1 = Normal (JArr out)
          /\ length out = length keys
          /\ forall i key, keys !! i = Some key ->
               (forall item, item ∈ items ->
                  sameValueZero (propOf alias item) key = true ->
                  (forall item', item' ∈ items ->
                     sameValueZero (propOf alias item') key = true -> item' = item) ->
                  out !! i = Some item)
               /\ ((forall item, item ∈ items ->
                      sameValueZero (propOf alias item) key = false) ->
                   out !! i = Some JUndefined))
  /\ (Part000.resolveBatch None cl keys nameInfo emptyWorld).1
     = Normal (JArr [ JObj [("name", JStr "Cy"); ("id", JNum 3)];
                      JUndefined;
                      JObj [("name", JStr "Ada"); ("id", JNum 1)] ])
  /\ (Part000.resolveBatch (Some "id0") cl keys nameInfo emptyWorld).1
     = Normal (JArr [JUndefined; JUndefined; JUndefined]).
Proof.
  intros cl keys alias. split; [|split].
  - apply (part000_resolveBatch_remaps_by_key None cl keys nameInfo emptyWorld);
      [reflexivity|reflexivity|discriminate].
  - vm_compute. reflexivity.
  - vm_compute. reflexivity.
Defined.

(** The same batch through [links.ts]. *)
Lemma linksTs_remap_of_three_keys :
  let cl := authorClosure (authorLink "usersByIds" "filter.id" true (Some "id")) in
  let keys := [JNum 3; JNum 7; JNum 1] in
  (exists call,
    target call = epUrl (targetEndpoint cl)
    /\ callVariables call !! LinksTs.varName = Some (JArr keys)
    /\ (LinksTs.resolveBatch cl keys nameInfo emptyWorld).2 = logCall call emptyWorld
    /\ forall obj items,
        execute call = Normal obj ->
        getProp obj (linkField (link cl)) = Normal (JArr items) ->
        Forall (fun item => isObject item = true) items ->
        exists out,
          (LinksTs.resolveBatch cl keys nameInfo emptyWorld).1 = Normal (JArr out)
          /\ length out = length keys
          /\ forall i key, keys !! i = Some key ->
               (forall item, item ∈ items ->
                  sameValueZero (propOf "id" item) key = true ->
                  (forall item', item' ∈ items ->
                     sameValueZero (propOf "id" item') key = true -> item' = item) ->
                  out !! i = Some item)
               /\ ((forall item, item ∈ items ->
                      sameValueZero (propOf "id" item) key = false) ->
                   out !! i = Some JUndefined))
  /\ (LinksTs.resolveBatch cl keys nameInfo emptyWorld).1
     = Normal (JArr [ JObj [("name", JStr "Cy"); ("id", JNum 3)];
                      JUndefined;
                      JObj [("name", JStr "Ada"); ("id", JNum 1)] ]).
Proof.
  intros cl keys. split.
  - apply (linksTs_resolveBatch_remaps_by_key cl keys nameInfo emptyWorld);
      [reflexivity|reflexivity|reflexivity|discriminate].
  - vm_compute. reflexivity.
Defined.

(** Three keys without [batchMode] on the sample: three calls. *)
Lemma part000_three_calls_for_three_keys :
  let cl := authorClosure (authorLink "user" "id" false (Some "id")) in
  let keys := [JNum 2; JNum 3; JNum 1] in
  (exists calls,
     Forall2 (carries cl nameInfo) keys calls
     /\ Part000.resolveBatch None cl keys nameInfo emptyWorld
        = (Normal (JArr (map (answerOf cl) calls)), logCalls calls emptyWorld))
  /\ (Part000.resolveBatch None cl keys nameInfo emptyWorld).1
     = Normal (JArr [ JPromise (Normal (JObj [("name", JStr "Bob")]));
                      JPromise (Normal (JObj [("name", JStr "Cy")]));
                      JPromise (Normal (JObj [("name", JStr "Ada")])) ])
  /\ length (dispatched (Part000.resolveBatch None cl keys nameInfo emptyWorld).2) = 3.
Proof.
  intros cl keys. split; [|split].
  - apply (part000_resolveBatch_one_call_per_key None cl keys nameInfo emptyWorld);
      [reflexivity|discriminate].
  - vm_compute. reflexivity.
  - vm_compute. reflexivity.
Defined.

(** The remapping of [links.ts] without [batchMode], on the sample. *)
Lemma linksTs_two_keys_undefined :
  let cl := authorClosure (authorLink "user" "id" false (Some "id")) in
  (LinksTs.resolveBatch cl [JNum 3; JNum 1] nameInfo emptyWorld).1
  = Normal (JArr [JUndefined; JUndefined]).
Proof.
  intros cl.
  apply (linksTs_unbatched_keyField_undefined cl [JNum 3; JNum 1] nameInfo emptyWorld);
    [reflexivity|reflexivity|by repeat constructor].
Defined.

(** The resolver of the interface [Node] on the sample: a user carrying its
    discriminator resolves to the object type [users_User]; a value without
    the discriminator, and one naming an unknown type, fail. *)
Lemma resolveType_of_sample_values :
  let resolver := TypeResolvers.resolveType "Node" sampleContext in
  let user := JObj [("__typename", JStr "users_User"); ("id", JNum 1)] in
  (forall type,
     TypeResolvers.hasTypename user = true ->
     TypeResolvers.findType sampleContext (TypeResolvers.typenameOf user) = Some type ->
     isObjectType type = true ->
     resolver user = Normal type)
  /\ isThrow (resolver user) = false
  /\ resolver (JObj [("id", JNum 1)]) = Throw (TypenameMissing "Node")
  /\ resolver (JObj [("__typename", JStr "User")]) = Throw (NoTypeWithThatName "Node").
Proof.
  intros resolver user. split; [|by vm_compute].
  exact (proj1 (proj2 (proj2 (proj2
           (resolveType_fails_iff_no_object_type nodeConfig sampleContext user
              {| TypeResolvers.otcName := "users_User";
                 TypeResolvers.isTypeOf := None |}))))).
Defined.

(** Without a key field the one answer of a batch is returned as it is,
    here in the order of the backend's table. *)
Lemma part000_batch_without_keyField :
  let cl := authorClosure (authorLink "usersByIds" "ids" true None) in
  let keys := [JNum 3; JNum 1] in
  Part000.resolveBatch None cl keys nameInfo emptyWorld
  = (do promise <- Part000.basicResolve cl (JArr keys) nameInfo;
     awaitWhile None promise) emptyWorld
  /\ (Part000.resolveBatch None cl keys nameInfo emptyWorld).1
     = Normal (JArr [JObj [("name", JStr "Ada")]; JObj [("name", JStr "Cy")]]).
Proof.
  intros cl keys. split.
  - apply (proj2 (part000_resolveBatch_returns_result_as_is None cl keys nameInfo
                    emptyWorld)); reflexivity.
  - vm_compute. reflexivity.
Defined.

End OnTheSample.

(** ** More on routing and on [transformField] *)

Section Composition.
Context `{Collaborators}.

Lemma startsWith_decompose s p :
  startsWith s p = true -> s = String.append p (substr s (String.length p)).
Proof.
  revert s. induction p as [|a p IH]; intros [|b s]; simpl; try done.
  intros Hp. apply andb_true_iff in Hp as [Hab Hp].
  apply Ascii.eqb_eq in Hab as ->.
  change (String a s = String a (String.append p (substr s (String.length p)))).
  f_equal. by apply IH.
Qed.

Lemma startsWith_append_l q p t :
  startsWith q p = true -> startsWith (String.append q t) p = true.
Proof.
  revert q. induction p as [|a p IH]; intros q.
  - intros _. by destruct (String.append q t).
  - destruct q as [|b q]; [done|]. cbn [startsWith].
    intros Hp. apply andb_true_iff in Hp as [Hab Hp].
    change (Ascii.eqb b a && startsWith (String.append q t) p = true).
    rewrite Hab. by apply IH.
Qed.

(** X7.  Whatever the configured prefixes, an answer of [splitTypeName]
    names a configured endpoint, and that endpoint's prefix followed by the
    returned type name is the merged name again; [splitTypeName] answers
    with nothing exactly when no configured prefix starts the merged
    name. *)
Theorem splitTypeName_answer_rebuilds_name
    (endpoints : list EndpointConfig) (mergedName : string) :
  match LinksTs.splitTypeName endpoints mergedName with
  | Some (name, originalTypeName) =>
      exists endpoint,
        endpoint ∈ endpoints /\ epName endpoint = name
        /\ mergedName = String.append (getTypePrefix endpoint) originalTypeName
  | None =>
      forall endpoint, endpoint ∈ endpoints ->
        startsWith mergedName (getTypePrefix endpoint) = false
  end.
Proof.
  rewrite splitTypeName_firstMatch. unfold firstMatch.
  destruct (List.find _ endpoints) as [e|] eqn:Hfind.
  - apply List.find_some in Hfind as [Hin Hstarts].
    exists e. split; [by apply list_elem_of_In|]. split; [done|].
    by apply startsWith_decompose.
  - intros e Hin. apply list_elem_of_In in Hin.
    exact (List.find_none _ _ Hfind e Hin).
Qed.

Lemma substr_append_l q p t :
  startsWith q p = true ->
  substr (String.append q t) (String.length p)
  = String.append (substr q (String.length p)) t.
Proof.
  revert q. induction p as [|a p IH]; intros q.
  - intros _. destruct q; [by destruct t|reflexivity].
  - destruct q as [|b q]; [done|]. cbn [startsWith].
    intros Hp. apply andb_true_iff in Hp as [_ Hp].
    change (substr (String.append q t) (String.length p)
            = String.append (substr q (String.length p)) t).
    by apply IH.
Qed.

Lemma splitTypeName_app before after mergedName :
  LinksTs.splitTypeName (before ++ after) mergedName
  = match LinksTs.splitTypeName before mergedName with
    | Some answer => Some answer
    | None => LinksTs.splitTypeName after mergedName
    end.
Proof.
  induction before as [|e before IH]; [reflexivity|].
  cbn [app LinksTs.splitTypeName].
  by destruct (startsWith mergedName (getTypePrefix e)).
Qed.

Lemma splitTypeName_none endpoints mergedName :
  (forall e, e ∈ endpoints -> startsWith mergedName (getTypePrefix e) = false) ->
  LinksTs.splitTypeName endpoints mergedName = None.
Proof.
  induction endpoints as [|e endpoints IH]; intros Hnone; [reflexivity|].
  cbn [LinksTs.splitTypeName]. rewrite (Hnone e) by apply list_elem_of_here.
  apply IH. intros e' Hin. apply Hnone. by apply list_elem_of_further.
Qed.

(** X5.  The match of [splitTypeName] is the first one in configuration
    order, not the longest.  When the prefix of an endpoint [earlier] starts
    the prefix of an endpoint [later], a merged name of [later] is never
    routed past [earlier], whatever endpoints are configured after
    [earlier] ([later] itself among them): it goes to [earlier] or to an
    endpoint configured before it; and when no endpoint configured before
    [earlier] has a prefix that starts the name, it goes to [earlier], with
    the rest of the prefix of [later] left in the type name. *)
Theorem splitTypeName_earlier_prefix_shadows
    (before after : list EndpointConfig) (earlier later : EndpointConfig) (t : string) :
  startsWith (getTypePrefix later) (getTypePrefix earlier) = true ->
  let mergedName := String.append (getTypePrefix later) t in
  let endpoints := before ++ earlier :: after in
  (exists e originalTypeName,
     e ∈ before ++ [earlier]
     /\ LinksTs.splitTypeName endpoints mergedName = Some (epName e, originalTypeName))
  /\ ((forall e, e ∈ before -> startsWith mergedName (getTypePrefix e) = false) ->
      LinksTs.splitTypeName endpoints mergedName
      = Some (epName earlier,
              String.append
                (substr (getTypePrefix later) (String.length (getTypePrefix earlier)))
                t)).
Proof.
  intros Hstarts mergedName endpoints.
  assert (LinksTs.splitTypeName (earlier :: after) mergedName
          = Some (epName earlier,
                  String.append
                    (substr (getTypePrefix later) (String.length (getTypePrefix earlier)))
                    t)) as Hhead.
  { cbn [LinksTs.splitTypeName]. unfold mergedName.
    by rewrite (startsWith_append_l _ _ t Hstarts), (substr_append_l _ _ t Hstarts). }
  unfold endpoints. rewrite splitTypeName_app. split.
  - destruct (LinksTs.splitTypeName before mergedName) as [[name rest]|] eqn:Hbefore.
    + rewrite splitTypeName_firstMatch in Hbefore. unfold firstMatch in Hbefore.
      destruct (List.find _ before) as [e|] eqn:Hfind; [|discriminate].
      injection Hbefore as <- <-.
      apply List.find_some in Hfind as [Hin _]. apply list_elem_of_In in Hin.
      eexists e, _. split; [apply elem_of_app; by left|reflexivity].
    + eexists earlier, _.
      split; [apply elem_of_app; right; by apply list_elem_of_singleton|exact Hhead].
  - intros Hnone. by rewrite (splitTypeName_none _ _ Hnone).
Qed.

Lemma endpointMap_snoc endpoints endpoint :
  endpointMap (endpoints ++ [endpoint])
  = <[epName endpoint := endpoint]> (endpointMap endpoints).
Proof. unfold endpointMap. by rewrite foldl_app. Qed.

Lemma endpointMap_lookup endpoints name endpoint :
  endpointMap endpoints !! name = Some endpoint ->
  endpoint ∈ endpoints /\ epName endpoint = name.
Proof.
  induction endpoints as [|e endpoints IH] using rev_ind; [done|].
  rewrite endpointMap_snoc.
  destruct (decide (epName e = name)) as [<-|Hne].
  - rewrite lookup_insert_eq. intros [= <-].
    split; [|done]. apply elem_of_app. right. by apply list_elem_of_singleton.
  - rewrite lookup_insert_ne by done. intros Hfound.
    destruct (IH Hfound) as [Hin Hname]. split; [|done]. apply elem_of_app. by left.
Qed.

Lemma endpointMap_configured endpoints endpoint :
  endpoint ∈ endpoints -> is_Some (endpointMap endpoints !! epName endpoint).
Proof.
  induction endpoints as [|e endpoints IH] using rev_ind; [by intros ?%elem_of_nil|].
  rewrite endpointMap_snoc. intros Hin.
  destruct (decide (epName e = epName endpoint)) as [Heq|Hne].
  - rewrite Heq, lookup_insert_eq. eauto.
  - rewrite lookup_insert_ne by done. apply IH.
    apply elem_of_app in Hin as [Hin|Hin]; [done|].
    apply list_elem_of_singleton in Hin. congruence.
Qed.

(** X8.  The lookup of an endpoint by name answers with the last
    configured endpoint of that name: of two endpoints of one name, the
    links of the earlier one are never consulted. *)
Theorem endpointMap_last_of_name (endpoints : list EndpointConfig) (name : string) :
  endpointMap endpoints !! name
  = List.find (fun endpoint => String.eqb (epName endpoint) name) (rev endpoints).
Proof.
  induction endpoints as [|e endpoints IH] using rev_ind; [done|].
  rewrite endpointMap_snoc, rev_app_distr. cbn [rev app List.find].
  destruct (String.eqb_spec (epName e) name) as [<-|Hne].
  - by rewrite lookup_insert_eq.
  - by rewrite lookup_insert_ne.
Qed.

(** X9.  In [links.ts] the error "Endpoint ... not found" of
    [transformField] cannot occur: the name [splitTypeName] answers with is
    the name of a configured endpoint, and every configured name is in the
    endpoint map. *)
Theorem linksTs_transformField_finds_endpoint
    (endpoints : list EndpointConfig) (schema : GraphQLSchema)
    (config : GraphQLNamedFieldConfig) (context : FieldTransformationContext)
    (name : string) :
  LinksTs.transformField endpoints schema config context
  <> Throw (EndpointNotFound name).
Proof.
  unfold LinksTs.transformField. rewrite splitTypeName_firstMatch. unfold firstMatch.
  destruct (List.find _ endpoints) as [e|] eqn:Hfind; [|discriminate].
  apply List.find_some in Hfind as [Hin _]. apply list_elem_of_In in Hin.
  destruct (endpointMap_configured _ _ Hin) as [endpoint Hfound].
  unfold installLink. rewrite Hfound.
  destruct (epLinks endpoint !! _) as [link|]; [|discriminate].
  destruct (endpointMap endpoints !! linkEndpoint link) as [target|]; [|discriminate].
  destruct (queryFieldType schema (epName target)) as [type|e'] eqn:Hquery.
  - destruct (asObjectType schema type) as [endpointQueryType|]; [|discriminate].
    destruct (typeFields endpointQueryType !! linkField link); discriminate.
  - unfold queryFieldType in Hquery.
    destruct (queryType schema ≫= _) as [q|]; [|congruence].
    destruct (typeFields q !! epName target); congruence.
Qed.

(** What a completed [installLink] leaves: the configuration untouched, or
    the link resolver of a configured link. *)
Lemma installLink_outcome endpoints schema config context endpointName name config' :
  installLink endpoints schema config context endpointName name = Normal config' ->
  config' = config
  \/ exists cl owner,
       config' = {| cfgName := cfgName config;
                    cfgType := NamedType (getNamedType (cfgType config'));
                    cfgResolve := LinkResolver cl |}
       /\ originalType cl = cfgType config
       /\ owner ∈ endpoints
       /\ epLinks owner !! String.append name (String.append "." (cfgName config))
          = Some (link cl)
       /\ targetEndpoint cl ∈ endpoints
       /\ epName (targetEndpoint cl) = linkEndpoint (link cl)
       /\ exists root,
            queryFieldType schema (linkEndpoint (link cl)) = Normal root
            /\ exists rootType,
                 asObjectType schema root = Some rootType
                 /\ is_Some (typeFields rootType !! linkField (link cl)).
Proof.
  unfold installLink.
  destruct (endpointMap endpoints !! endpointName) as [owner|] eqn:Howner; [|discriminate].
  destruct (epLinks owner !! _) as [l|] eqn:Hlink; [|intros [= <-]; by left].
  destruct (endpointMap endpoints !! linkEndpoint l) as [target|] eqn:Htarget;
    [|discriminate].
  destruct (queryFieldType schema (epName target)) as [root|e] eqn:Hroot; [|discriminate].
  destruct (asObjectType schema root) as [rootType|] eqn:Hobject; [|discriminate].
  destruct (typeFields rootType !! linkField l) as [fieldType|] eqn:Hfield; [|discriminate].
  intros [= <-]. right.
  apply endpointMap_lookup in Howner as [Howner _].
  apply endpointMap_lookup in Htarget as [Htarget Hname].
  exists {| link := l; targetEndpoint := target; originalType := cfgType config |}, owner.
  cbn. rewrite <- Hname. repeat split; try done.
  exists root. split; [done|]. exists rootType. split; [done|]. by rewrite Hfield.
Qed.

(** X10.  When [transformField] of either file completes, it either leaves
    the field configuration untouched or installs the link resolver of a
    link that a configured endpoint declares for this field: the field keeps
    its name, its type becomes a bare named type (no list or non-null
    wrapper), the resolver remembers the field's original type, and the
    link's target is a configured endpoint whose field of the [Query] type
    is an object type with the link's target field. *)
Theorem transformField_installs_configured_link
    (endpoints : list EndpointConfig) (schema : GraphQLSchema)
    (config config' : GraphQLNamedFieldConfig) (context : FieldTransformationContext) :
  LinksTs.transformField endpoints schema config context = Normal config'
  \/ Part000.transformField endpoints schema config context = Normal config' ->
  config' = config
  \/ exists cl owner typeName,
       config' = {| cfgName := cfgName config;
                    cfgType := NamedType (getNamedType (cfgType config'));
                    cfgResolve := LinkResolver cl |}
       /\ originalType cl = cfgType config
       /\ owner ∈ endpoints
       /\ epLinks owner !! String.append typeName (String.append "." (cfgName config))
          = Some (link cl)
       /\ targetEndpoint cl ∈ endpoints
       /\ epName (targetEndpoint cl) = linkEndpoint (link cl)
       /\ exists root,
            queryFieldType schema (linkEndpoint (link cl)) = Normal root
            /\ exists rootType,
                 asObjectType schema root = Some rootType
                 /\ is_Some (typeFields rootType !! linkField (link cl)).
Proof.
  intros [Hrun|Hrun].
  - unfold LinksTs.transformField in Hrun.
    destruct (LinksTs.splitTypeName _ _) as [[endpointName typeName]|];
      [|injection Hrun as <-; by left].
    destruct (installLink_outcome _ _ _ _ _ _ _ Hrun) as [->|(cl & owner & Hrest)];
      [by left|right]. by exists cl, owner, typeName.
  - unfold Part000.transformField in Hrun.
    destruct (Part000.splitTypeName _ _) as [[endpointName typeName]|];
      [|injection Hrun as <-; by left].
    destruct (installLink_outcome _ _ _ _ _ _ _ Hrun) as [->|(cl & owner & Hrest)];
      [by left|right]. by exists cl, owner, typeName.
Qed.

Lemma firstSegment_empty path :
  firstSegment path = "" <-> path = "" \/ startsWith path "." = true.
Proof.
  unfold firstSegment. destruct path as [|c rest]; cbn [split].
  - split; [by left|done].
  - assert (startsWith (String c rest) "." = Ascii.eqb c ".") as ->.
    { cbn [startsWith]. destruct rest; apply andb_true_r. }
    destruct (Ascii.eqb c ".").
    + split; [by right|done].
    + destruct (split "." rest) as [|seg segs]; cbn;
        (split; [discriminate|by intros [?|?]]).
Qed.

(** X11.  The nested-argument builder fails exactly for the empty path and
    for a path that starts with a dot, always with "Argument must not be
    empty" and whatever the variable name; every other path, also one with
    empty later segments as in [a..b] or [a.], yields an argument. *)
Theorem createNestedArgument_fails_on_leading_dot (argumentPath variableName : string) :
  (createNestedArgumentWithVariableNode argumentPath variableName
   = Throw ArgumentMustNotBeEmpty
   <-> argumentPath = "" \/ startsWith argumentPath "." = true)
  /\ (isThrow (createNestedArgumentWithVariableNode argumentPath variableName) = false
      <-> ~ (argumentPath = "" \/ startsWith argumentPath "." = true)).
Proof.
  rewrite <- firstSegment_empty.
  destruct (decide (firstSegment argumentPath = "")) as [Hempty|Hfull].
  - rewrite (createNestedArgument_throws _ _ Hempty). cbn. split; split; done.
  - destruct (createNestedArgument_succeeds _ variableName Hfull) as [argument ->].
    cbn. split; split; done.
Qed.

End Composition.

(** ** More on [part_000]'s variable type and on the schema merger *)

(** X22.  [createTypeNode] mirrors the type wrapper by wrapper: the node is
    one the query language allows (no non-null node directly below a
    non-null node, as the cast in the source asserts) exactly when the type
    is, and different types give different nodes. *)
Theorem createTypeNode_mirrors_type (type : GraphQLType) :
  validTypeNode (createTypeNode type) = wellFormedType type
  /\ forall type', createTypeNode type = createTypeNode type' -> type = type'.
Proof.
  split.
  - induction type as [n|t IH|t IH]; cbn; [done|done|].
    destruct t as [n'|t'|t']; cbn in *; done.
  - induction type as [n|t IH|t IH]; intros [n'|t'|t']; cbn; try discriminate.
    + by intros [= ->].
    + intros [= Heq]. by rewrite (IH _ Heq).
    + intros [= Heq]. by rewrite (IH _ Heq).
Qed.

(** X12.  The type [part_000] declares for the link variable is a type the
    schema language allows whenever the field's original type is one, and
    names the same type: a field that is already non-null is not wrapped in
    a second non-null.  With [batchMode] it is a non-null list of non-null
    items, without [batchMode] the original type. *)
Theorem part000_varType_well_formed (cl : LinkClosure) :
  wellFormedType (originalType cl) = true ->
  wellFormedType (Part000.varType cl) = true
  /\ getNamedType (Part000.varType cl) = getNamedType (originalType cl)
  /\ (if linkBatchMode (link cl)
      then exists item,
             Part000.varType cl = GraphQLNonNull (GraphQLList (GraphQLNonNull item))
             /\ nullable item = true
             /\ (originalType cl = item \/ originalType cl = GraphQLNonNull item)
      else Part000.varType cl = originalType cl).
Proof.
  intros Hwf. unfold Part000.varType.
  destruct (linkBatchMode (link cl)); [|done].
  destruct (originalType cl) as [n|t|t] eqn:Horiginal; cbn in *.
  - split; [done|]. split; [done|]. exists (NamedType n). eauto.
  - split; [done|]. split; [done|]. exists (GraphQLList t). eauto.
  - split; [done|]. split; [done|]. exists t.
    split; [done|]. split; [by destruct t|]. by right.
Qed.

Section MergerMore.
Import SchemaMerger.
Context {GraphQLObjectType GraphQLFieldResolver GraphQLDirective : Type}.
Context (isNativeDirective : GraphQLDirective -> bool).
Context (specifiedDirectives : list GraphQLDirective).

Abbreviation FieldConfig' := (@FieldConfig GraphQLObjectType GraphQLFieldResolver).
Abbreviation NamedSchema' :=
  (@NamedSchema GraphQLObjectType GraphQLFieldResolver GraphQLDirective).
Abbreviation MergedSchema' :=
  (@MergedSchema GraphQLObjectType GraphQLFieldResolver GraphQLDirective).

Context (schemaAssertions : MergedSchema' -> option Error).

Lemma foldl_concat {A} (acc : list A) (ls : list (list A)) :
  foldl (fun a b => a ++ b) acc ls = acc ++ concat ls.
Proof.
  revert acc. induction ls as [|l ls IH]; intros acc; cbn.
  - by rewrite app_nil_r.
  - by rewrite IH, app_assoc.
Qed.

(** X13.  The directives of a merged schema, and of the configuration
    [mergeSchemas] hands to [new GraphQLSchema] in any case, are the
    directives of the source schemas that are not native, schema after
    schema in the order given and each schema's in its own order, followed
    by the specified directives.  Nothing is deduplicated: a directive that
    two schemas declare is listed twice. *)
Theorem mergeSchemas_directives (schemas : list NamedSchema') :
  let result :=
    mergeSchemas isNativeDirective specifiedDirectives schemaAssertions schemas in
  let directives :=
    concat (map (fun s => List.filter (fun d => negb (isNativeDirective d))
                            (getDirectives (schema s))) schemas)
    ++ specifiedDirectives in
  (exists config,
     result = newGraphQLSchema schemaAssertions config
     /\ msDirectives config = directives)
  /\ (forall merged, result = Normal merged -> msDirectives merged = directives)
  /\ (forall d,
        d ∈ directives <->
        d ∈ specifiedDirectives
        \/ exists s, s ∈ schemas /\ d ∈ getDirectives (schema s)
                     /\ isNativeDirective d = false).
Proof.
  intros result directives.
  assert (exists config,
            result = newGraphQLSchema schemaAssertions config
            /\ msDirectives config = directives) as Hconfig.
  { unfold result. rewrite mergeSchemas_config. eexists. split; [reflexivity|].
    cbn [msDirectives]. rewrite foldl_concat. cbn [app]. unfold directives.
    do 2 f_equal. apply map_ext. intros s.
    induction (getDirectives (schema s)) as [|d ds IH]; [done|].
    cbn [List.filter]. rewrite filter_cons.
    destruct (isNativeDirective d) eqn:Hd; cbn.
    - rewrite decide_False by done. exact IH.
    - rewrite decide_True by done. by rewrite IH. }
  split; [exact Hconfig|]. split.
  - intros merged Hmerged. destruct Hconfig as (config & Hresult & Hdirectives).
    rewrite Hresult in Hmerged.
    by rewrite (newGraphQLSchema_built _ _ _ Hmerged).
  - intros d. unfold directives. rewrite elem_of_app. split.
    + intros [Hin|Hin]; [right|by left].
      apply list_elem_of_In, in_concat in Hin as (l & Hl & Hd).
      apply in_map_iff in Hl as (s & <- & Hs).
      apply filter_In in Hd as [Hd Hnative].
      exists s. rewrite !list_elem_of_In. split; [done|]. split; [done|].
      by apply negb_true_iff.
    + intros [Hin|(s & Hs & Hd & Hnative)]; [by right|left].
      apply list_elem_of_In, in_concat.
      exists (List.filter (fun d => negb (isNativeDirective d)) (getDirectives (schema s))).
      split.
      * apply in_map_iff. exists s. split; [done|]. by apply list_elem_of_In.
      * apply filter_In. split; [by apply list_elem_of_In|]. by rewrite Hnative.
Qed.

(** X14.  The field a root type has under a namespace other than
    [__proto__] is that of the last configuration of that namespace that
    has a type: a later schema replaces the field of an earlier schema of
    the same namespace, and a schema without that root type removes
    nothing.  Under [__proto__] a root type has no field, whatever the
    configurations: the assignment goes to the prototype of the field
    map. *)
Theorem createRootFieldMaybe_last_typed_wins
    (name : string) (types : list FieldConfig') (ns : string) :
  fieldsOf (createRootFieldMaybe name types) !! ns
  = if String.eqb ns "__proto__" then None
    else
      match List.find (fun fc => String.eqb (fcNamespace fc) ns
                                 && bool_decide (is_Some (fcType fc))) (rev types) with
      | Some fc =>
          match fcType fc with
          | Some type => Some {| rfType := type; rfResolve := fcResolver fc |}
          | None => None
          end
      | None => None
      end.
Proof.
  rewrite createRootFieldMaybe_fields.
  induction types as [|fc types IH] using rev_ind.
  { cbn. by destruct (String.eqb ns "__proto__"). }
  rewrite collectFields_snoc, rev_app_distr. cbn [rev app List.find].
  destruct (fcType fc) as [type|] eqn:Htype; cbn.
  - rewrite setField_lookup.
    destruct (String.eqb_spec (fcNamespace fc) ns) as [<-|Hne]; cbn.
    + rewrite IH.
      destruct (String.eqb (fcNamespace fc) "__proto__"); [reflexivity|by rewrite Htype].
    + by destruct (String.eqb (fcNamespace fc) "__proto__").
  - by rewrite andb_false_r.
Qed.

End MergerMore.

(** ** More on the resolver, the loader and the dispatched query *)

Section EngineMore.
Context `{Collaborators}.

(** X15.  An invocation of the installed resolver never dispatches a
    backend call itself, never touches [keyFieldAlias], and changes the
    loader of no request context but its own. *)
Theorem resolve_keeps_other_contexts
    (source args : JsValue) (context : nat) (info : GraphQLResolveInfo) (w : World) :
  let w' := (resolve source args context info w).2 in
  dispatched w' = dispatched w
  /\ keyFieldAlias w' = keyFieldAlias w
  /\ forall other, other <> context -> dataLoaders w' !! other = dataLoaders w !! other.
Proof.
  intros w'. unfold w'.
  destruct (linkValue source info) as [value|] eqn:Hvalue.
  - rewrite (resolve_with_load _ _ _ _ _ _ Hvalue). cbn.
    split; [done|]. split; [done|]. intros other Hother. by rewrite lookup_insert_ne.
  - by rewrite (resolve_without_load _ _ _ _ _ Hvalue).
Qed.

Lemma resolve_result_of_load source args context info w value :
  linkValue source info = Some value ->
  (resolve source args context info w).1
  = Normal (Loading context (length (pending context w))).
Proof.
  unfold linkValue, resolve, pending.
  destruct (fieldNodes info) as [|fieldNode others]; [discriminate|].
  unfold bind at 1. unfold lift at 1.
  destruct (getProp source (responseAlias fieldNode)) as [v|e]; [|discriminate].
  destruct (truthy v) eqn:Htruthy; [|discriminate]. intros [= ->]. cbn [negb].
  unfold bind at 1. unfold getLoader at 1.
  destruct (dataLoaders w !! context) as [dataLoader|] eqn:Hfound.
  - unfold bind at 1. unfold ret at 1. unfold load, bind, getLoader, setLoader, ret.
    by rewrite Hfound.
  - unfold bind at 1. unfold setLoader at 1. unfold load, bind, getLoader, setLoader, ret.
    cbn [dataLoaders withLoader]. by rewrite lookup_insert_eq.
Qed.

Lemma pending_after_resolve source args context info w :
  pending context (resolve source args context info w).2
  = pending context w ++ match linkValue source info with
                         | Some value => [value]
                         | None => []
                         end.
Proof.
  destruct (linkValue source info) as [value|] eqn:Hvalue.
  - rewrite (resolve_with_load _ _ _ _ _ _ Hvalue). unfold pending at 1.
    cbn [dataLoaders withLoader]. rewrite lookup_insert_eq. unfold pending.
    by destruct (dataLoaders w !! context).
  - rewrite (resolve_without_load _ _ _ _ _ Hvalue). by rewrite app_nil_r.
Qed.

Lemma resolveAll_results context source info rest w :
  (resolveAll context ((source, info) :: rest) w).1
  = (resolve source JUndefined context info w).1
    :: (resolveAll context rest (resolve source JUndefined context info w).2).1.
Proof.
  cbn [resolveAll]. destruct (resolve source JUndefined context info w) as [r w1].
  cbn [fst snd]. by destruct (resolveAll context rest w1).
Qed.

(** The promise an invocation gets back stands for the position its own
    link value has in the loader's queue. *)
Lemma resolveAll_slot context calls w i source info value :
  calls !! i = Some (source, info) ->
  linkValue source info = Some value ->
  exists slot,
    (resolveAll context calls w).1 !! i = Some (Normal (Loading context slot))
    /\ (pending context w ++ loadedKeys calls) !! slot = Some value.
Proof.
  revert w i. induction calls as [|[source' info'] rest IH]; intros w i Hi Hvalue;
    [done|].
  rewrite resolveAll_results.
  unfold loadedKeys. cbn [omap list_omap fst snd].
  destruct i as [|i]; cbn in Hi.
  - injection Hi as -> ->. rewrite Hvalue.
    exists (length (pending context w)). split.
    + cbn. by rewrite (resolve_result_of_load _ _ _ _ _ _ Hvalue).
    + by rewrite lookup_app_r, Nat.sub_diag.
  - destruct (IH (resolve source' JUndefined context info' w).2 i Hi Hvalue)
      as (slot & Hslot & Hkey).
    exists slot. split; [exact Hslot|].
    rewrite pending_after_resolve, <- app_assoc in Hkey.
    by destruct (linkValue source' info').
Qed.

(** X16.  The query [basicResolve] of [part_000] dispatches, for a link
    whose argument path does not start with an empty segment: exactly one
    call, to the target endpoint; its variables are the caller's, with the
    link value bound to the chosen variable and every other variable left as
    it was; its document is the caller's fragments followed by one query
    operation with the extended variable definitions, whose only selection
    is the link's target field with the one nested argument and, below it,
    the caller's selection set (extended by the key field when [batchMode]
    and [keyField] are set). *)
Theorem part000_basicResolve_query
    (cl : LinkClosure) (value : JsValue) (info : GraphQLResolveInfo) (w : World) :
  firstSegment (linkArgument (link cl)) <> "" ->
  let parts := getFieldAsQueryParts info in
  let chosen := Part000.extendedVariables cl info in
  exists call argument,
    dispatched (Part000.basicResolve cl value info w).2 = dispatched w ++ [call]
    /\ target call = epUrl (targetEndpoint cl)
    /\ callVariables call !! chosen.2 = Some value
    /\ (forall name, name <> chosen.2 ->
          callVariables call !! name = variableValues parts !! name)
    /\ createNestedArgumentWithVariableNode (linkArgument (link cl)) chosen.2
       = Normal argument
    /\ document call
       = map DFragment (fragments parts)
         ++ [DOperation
               {| opOperation := query;
                  opName := None;
                  opVariableDefinitions := chosen.1;
                  opSelectionSet :=
                    [Field None (linkField (link cl)) [argument]
                       (if linkBatchMode (link cl) && keyFieldSet (link cl)
                        then (Part000.extendedSelection cl info).2
                        else selectionSet parts)] |}].
Proof.
  intros Harg parts chosen.
  destruct (part000_basicResolve_run cl value info w Harg) as (argument & Hargument & Hrun).
  match type of Hrun with _ = (Normal (answerOf cl ?c), _) => exists c, argument end.
  rewrite Hrun. cbn [snd].
  split; [|split; [|split; [|split; [|split]]]].
  - unfold logCall. cbn [dispatched]. f_equal.
    by destruct (linkBatchMode (link cl) && keyFieldSet (link cl)).
  - reflexivity.
  - cbn. apply lookup_insert_eq.
  - intros name Hname. cbn. by rewrite lookup_insert_ne.
  - exact Hargument.
  - reflexivity.
Qed.

(** X17.  Without [batchMode], [resolveBatch] of [part_000] never throws,
    whatever the link, the keys, the backend and the other batches do: it
    returns one promise per key, so that a failure (of the backend, or of
    the query construction) rejects the promises of the keys concerned and
    nothing else. *)
Theorem part000_unbatched_resolveBatch_never_throws
    (meanwhile : option string) (cl : LinkClosure) (keys : list JsValue)
    (info : GraphQLResolveInfo) (w : World) :
  linkBatchMode (link cl) = false ->
  exists promises,
    (Part000.resolveBatch meanwhile cl keys info w).1 = Normal (JArr promises)
    /\ length promises = length keys
    /\ Forall (fun p => isPromise p = true) promises.
Proof.
  intros Hbatch. unfold Part000.resolveBatch. rewrite Hbatch. cbn [negb orb].
  unfold Part000.basicResolve.
  match goal with
  | |- context [mapM (fun key => async (@?body key)) keys] =>
      destruct (mapM_async_promises body keys w) as (promises & w' & Hrun & Hall & Hlen)
  end.
  exists promises. unfold bind at 1. unfold bind at 1. rewrite Hrun.
  by unfold awaitWhile, ret.
Qed.



End EngineMore.

(** ** The loader and [resolveBatch] together, and the rewrite of [links.ts] *)

Section Together.
Context `{Collaborators}.

Lemma linksTs_unbatched_calls cl keys info w :
  linkBatchMode (link cl) = false ->
  firstSegment (linkArgument (link cl)) <> "" ->
  exists calls,
    Forall2 (fun key call =>
               target call = epUrl (targetEndpoint cl)
               /\ callVariables call !! LinksTs.varName = Some key) keys calls
    /\ mapM (fun key => LinksTs.basicResolve cl key info) keys w
       = (Normal (map (answerOf cl) calls), logCalls calls w).
Proof.
  intros Hbatch Harg. revert w.
  induction keys as [|key keys IH]; intros w.
  - exists []. split; [constructor|]. by rewrite logCalls_nil.
  - destruct (linksTs_basicResolve_dispatches cl key info w (or_introl Hbatch) Harg)
      as (call & Hrun & Htarget & Hvar).
    destruct (IH (logCall call w)) as (calls & Hcarry & Hrest).
    exists (call :: calls). split; [by constructor|].
    cbn [mapM]. unfold bind at 1. rewrite Hrun.
    unfold bind at 1. rewrite Hrest. unfold ret.
    by rewrite logCalls_cons.
Qed.

(** X19.  [links.ts], with neither [batchMode] nor [keyField]: for [N] keys
    [resolveBatch] dispatches exactly [N] calls to the target endpoint, the
    [i]-th one binding the [i]-th key to [$param], and returns the [N]
    promises of their answers in the same order. *)
Theorem linksTs_resolveBatch_one_call_per_key
    (cl : LinkClosure) (keys : list JsValue) (info : GraphQLResolveInfo) (w : World) :
  linkBatchMode (link cl) = false ->
  keyFieldSet (link cl) = false ->
  firstSegment (linkArgument (link cl)) <> "" ->
  exists calls,
    Forall2 (fun key call =>
               target call = epUrl (targetEndpoint cl)
               /\ callVariables call !! LinksTs.varName = Some key) keys calls
    /\ LinksTs.resolveBatch cl keys info w
       = (Normal (JArr (map (answerOf cl) calls)), logCalls calls w).
Proof.
  intros Hbatch Hkey Harg.
  destruct (linksTs_unbatched_calls cl keys info w Hbatch Harg)
    as (calls & Hcarry & Hrun).
  exists calls. split; [done|].
  unfold LinksTs.resolveBatch. rewrite Hbatch, Hkey. cbn [negb].
  unfold bind at 1. unfold bind at 1. by rewrite Hrun.
Qed.

(** X20.  The loader and [resolveBatch] of [part_000] together, without
    [batchMode]: when the invocations of a request context that had no
    loader are followed by the dispatch of the loader's batch, the promise
    every invocation with a truthy link value got back settles to the answer
    of a backend call that carries that invocation's own link value,
    whatever other batches do meanwhile. *)
Theorem part000_each_caller_gets_its_own_answer
    (meanwhile : option string) (cl : LinkClosure) (context : nat)
    (calls : list (JsValue * GraphQLResolveInfo))
    (first : GraphQLResolveInfo) (w : World) :
  linkBatchMode (link cl) = false ->
  firstSegment (linkArgument (link cl)) <> "" ->
  dataLoaders w !! context = None ->
  firstLoadInfo calls = Some first ->
  let run := resolveAll context calls w in
  exists results,
    (dispatchLoader (Part000.resolveBatch meanwhile cl) context run.2).1 = Normal results
    /\ length results = length (loadedKeys calls)
    /\ forall i source info value,
         calls !! i = Some (source, info) ->
         linkValue source info = Some value ->
         exists slot call,
           run.1 !! i = Some (Normal (Loading context slot))
           /\ carries cl first value call
           /\ results !! slot
              = Some (andThen (execute call)
                        (fun obj => getProp obj (linkField (link cl)))).
Proof.
  intros Hbatch Harg Hnone Hfirst run. unfold run.
  rewrite (resolveAll_fresh_context _ _ _ Hnone), Hfirst, dispatchLoader_existing.
  cbn [queue batchInfo].
  set (w0 := withLoader context {| batchInfo := first; queue := [] |} w).
  destruct (part000_unbatched_calls cl (loadedKeys calls) first w0 Hbatch Harg)
    as (backendCalls & Hcarry & Hrun).
  assert (Part000.resolveBatch meanwhile cl (loadedKeys calls) first w0
          = (Normal (JArr (map (answerOf cl) backendCalls)),
             interleave meanwhile (logCalls backendCalls w0)))
    as Hbatched.
  { unfold Part000.resolveBatch. rewrite Hbatch. cbn [negb orb].
    unfold bind at 1. unfold bind at 1. by rewrite Hrun. }
  exists (map settle (map (answerOf cl) backendCalls)).
  split; [|split].
  - unfold bind at 1. rewrite Hbatched. by unfold bind, lift, ret.
  - rewrite !length_map. symmetry. by eapply Forall2_length.
  - intros i source info value Hi Hvalue.
    destruct (resolveAll_slot context calls w i source info value Hi Hvalue)
      as (slot & Hslot & Hkey).
    unfold pending in Hkey. rewrite Hnone in Hkey. cbn [app] in Hkey.
    destruct (Forall2_lookup_l _ _ _ _ _ Hcarry Hkey) as (call & Hcall & Hcarries).
    exists slot, call. split; [exact Hslot|]. split; [exact Hcarries|].
    by rewrite !list_lookup_fmap, Hcall.
Qed.

(** X21.  Whenever the rewrite of [links.ts] completes, the rewritten query
    keeps what the caller had: the same fragments; the caller's variable
    definitions, followed by the one of [$param]; every variable value but
    that of [param]; and, below the one root selection of the link's target
    field, the caller's selections in their order, followed by the key field
    when one is configured and by nothing else. *)
Theorem linksTs_transform_keeps_callers_query
    (cl : LinkClosure) (value : JsValue) (q q' : ProxyQuery) :
  LinksTs.transform cl value q = Normal q' ->
  pqFragments q' = pqFragments q
  /\ opOperation (pqOperation q') = query
  /\ declaredNames (opVariableDefinitions (pqOperation q'))
     = declaredNames (opVariableDefinitions (pqOperation q)) ++ [LinksTs.varName]
  /\ pqVariables q' !! LinksTs.varName = Some value
  /\ (forall name, name <> LinksTs.varName ->
        pqVariables q' !! name = pqVariables q !! name)
  /\ exists argument,
       createNestedArgumentWithVariableNode (linkArgument (link cl)) LinksTs.varName
       = Normal argument
       /\ opSelectionSet (pqOperation q')
          = [Field None (linkField (link cl)) [argument]
               (opSelectionSet (pqOperation q)
                ++ (if keyFieldSet (link cl)
                    then [Field None (keyFieldName (link cl)) [] []]
                    else []))].
Proof.
  unfold LinksTs.transform.
  destruct (LinksTs.varType cl) as [type|e]; [|discriminate].
  destruct (createNestedArgumentWithVariableNode _ _) as [argument|e] eqn:Hargument;
    [|discriminate].
  intros [= <-]. cbn.
  split; [done|]. split; [done|]. split.
  { unfold declaredNames. by rewrite map_app. }
  split; [apply lookup_insert_eq|]. split.
  { intros name Hname. by rewrite lookup_insert_ne. }
  by exists argument.
Qed.

(** X23.  [links.ts], with [batchMode], on a field whose own type is
    non-null: the variable type cannot be built, so that every call of
    [basicResolve] hands back a promise rejected by the [GraphQLNonNull]
    constructor, [resolveBatch] fails with that error whatever the keys,
    and no backend call is dispatched.  [part_000], which goes through
    [getNonNullType], dispatches its call for the same link. *)
Theorem linksTs_batch_rejects_non_null_field
    (cl : LinkClosure) (keys : list JsValue) (value : JsValue)
    (info : GraphQLResolveInfo) (w : World) :
  linkBatchMode (link cl) = true ->
  nullable (originalType cl) = false ->
  LinksTs.basicResolve cl value info w = (Normal (JPromise (Throw NonNullOfNonNull)), w)
  /\ LinksTs.resolveBatch cl keys info w = (Throw NonNullOfNonNull, w)
  /\ (firstSegment (linkArgument (link cl)) <> "" ->
      exists call,
        dispatched (Part000.basicResolve cl value info w).2 = dispatched w ++ [call]
        /\ callVariables call !! (Part000.extendedVariables cl info).2 = Some value).
Proof.
  intros Hbatch Hnull.
  assert (forall v, LinksTs.basicResolve cl v info w
                    = (Normal (JPromise (Throw NonNullOfNonNull)), w)) as Hrun.
  { intros v.
    unfold LinksTs.basicResolve, async, LinksTs.resolveAsProxy, LinksTs.transform.
    by rewrite linksTs_varType, Hbatch, Hnull. }
  split; [apply Hrun|]. split.
  - unfold LinksTs.resolveBatch. rewrite Hbatch.
    unfold bind at 1. unfold bind at 1. by rewrite Hrun.
  - intros Harg.
    destruct (createNestedArgument_succeeds _ (Part000.extendedVariables cl info).2 Harg)
      as [argument Hargument].
    exists (builtQuery cl info argument value).
    rewrite (part000_basicResolve_with _ _ _ _ _ Hargument). split.
    + cbn. by destruct (linkBatchMode (link cl) && keyFieldSet (link cl)).
    + cbn. apply lookup_insert_eq.
Qed.

End Together.

(** ** The further statements on the sample deployment *)

Section MoreOnTheSample.
Import Sample.
#[local] Existing Instance sampleCollaborators.

(** With the prefixes [shop_], [shop_eu_] and [shop_eu_x_], in that order,
    the type [shop_eu_x_Order] of the third endpoint is routed to the first
    one, as [eu_x_Order]. *)
Lemma splitTypeName_takes_first_match :
  let endpoints := [shopEndpoint; shopEuEndpoint; shopEuXEndpoint] in
  LinksTs.splitTypeName endpoints "shop_eu_x_Order" = Some ("shop", "eu_x_Order")
  /\ route endpoints "shop_eu_x_Order" = Some ("shop_eu_x", "Order").
Proof.
  intros endpoints. split; [|vm_compute; reflexivity].
  assert (startsWith (getTypePrefix shopEuXEndpoint) (getTypePrefix shopEndpoint) = true)
    as Hstarts by reflexivity.
  apply (proj2 (splitTypeName_earlier_prefix_shadows [] [shopEuEndpoint; shopEuXEndpoint]
                  shopEndpoint shopEuXEndpoint "Order" Hstarts)).
  intros e Hin. by apply elem_of_nil in Hin.
Defined.

(** The composition of the sample: [transformField] of either file
    installs the link [Post.author] of the [posts] endpoint. *)
Lemma transformField_installs_author_link :
  let link := authorLink "user" "id" false None in
  let endpoints := [postsEndpoint link; usersEndpoint] in
  let installed :=
    {| cfgName := "author"; cfgType := NamedType "users_User";
       cfgResolve := LinkResolver (authorClosure link) |} in
  LinksTs.transformField endpoints mergedSchema authorConfig postContext = Normal installed
  /\ (installed = authorConfig
      \/ exists cl owner typeName,
           installed = {| cfgName := cfgName authorConfig;
                          cfgType := NamedType (getNamedType (cfgType installed));
                          cfgResolve := LinkResolver cl |}
           /\ originalType cl = cfgType authorConfig
           /\ owner ∈ endpoints
           /\ epLinks owner
                !! String.append typeName (String.append "." (cfgName authorConfig))
              = Some (Transformer.link cl)
           /\ targetEndpoint cl ∈ endpoints
           /\ epName (targetEndpoint cl) = linkEndpoint (Transformer.link cl)
           /\ exists root,
                queryFieldType mergedSchema (linkEndpoint (Transformer.link cl))
                = Normal root
                /\ exists rootType,
                     asObjectType mergedSchema root = Some rootType
                     /\ is_Some (typeFields rootType
                                   !! linkField (Transformer.link cl))).
Proof.
  intros link endpoints installed.
  assert (LinksTs.transformField endpoints mergedSchema authorConfig postContext
          = Normal installed) as Hrun by (vm_compute; reflexivity).
  split; [exact Hrun|].
  apply (transformField_installs_configured_link endpoints mergedSchema authorConfig
           installed postContext).
  by left.
Defined.

(** A link on a field of type [Int!], in batch mode: the variable is
    declared as [[Int!]!]. *)
Lemma part000_varType_of_required_field :
  let cl := {| Transformer.link := authorLink "usersByIds" "ids" true (Some "id");
               targetEndpoint := usersEndpoint;
               originalType := GraphQLNonNull (NamedType "Int") |} in
  wellFormedType (Part000.varType cl) = true
  /\ getNamedType (Part000.varType cl) = getNamedType (originalType cl)
  /\ (exists item,
        Part000.varType cl = GraphQLNonNull (GraphQLList (GraphQLNonNull item))
        /\ nullable item = true
        /\ (originalType cl = item \/ originalType cl = GraphQLNonNull item)).
Proof.
  intros cl. apply (part000_varType_well_formed cl). reflexivity.
Defined.

(** The query of the sample batch: the caller's variable [first] stays, the
    keys are bound to [id]. *)
Lemma part000_query_of_sample_batch :
  let cl := authorClosure (authorLink "usersByIds" "filter.id" true (Some "id")) in
  let info := callerInfo [Field None "name" [] []]
                [VariableDefinition "first" (NamedTypeNode "Int")]
                {["first" := JNum 10]} in
  let value := JArr [JNum 3; JNum 1] in
  let parts := getFieldAsQueryParts info in
  let chosen := Part000.extendedVariables cl info in
  (exists call argument,
     dispatched (Part000.basicResolve cl value info emptyWorld).2
     = dispatched emptyWorld ++ [call]
     /\ target call = epUrl (targetEndpoint cl)
     /\ callVariables call !! chosen.2 = Some value
     /\ (forall name, name <> chosen.2 ->
           callVariables call !! name = variableValues parts !! name)
     /\ createNestedArgumentWithVariableNode (linkArgument (Transformer.link cl))
          chosen.2 = Normal argument
     /\ document call
        = map DFragment (fragments parts)
          ++ [DOperation
                {| opOperation := query;
                   opName := None;
                   opVariableDefinitions := chosen.1;
                   opSelectionSet :=
                     [Field None (linkField (Transformer.link cl)) [argument]
                        (if linkBatchMode (Transformer.link cl)
                            && keyFieldSet (Transformer.link cl)
                         then (Part000.extendedSelection cl info).2
                         else selectionSet parts)] |}])
  /\ chosen.2 = "id".
Proof.
  intros cl info value parts chosen. split; [|reflexivity].
  apply (part000_basicResolve_query cl value info emptyWorld). discriminate.
Defined.

(** Without [batchMode] and with the empty argument path, two keys still
    yield two promises. *)
Lemma part000_two_promises_for_two_keys :
  let cl := authorClosure (authorLink "user" "" false None) in
  exists promises,
    (Part000.resolveBatch None cl [JNum 3; JNum 1] nameInfo emptyWorld).1
    = Normal (JArr promises)
    /\ length promises = 2
    /\ Forall (fun p => isPromise p = true) promises.
Proof.
  intros cl.
  apply (part000_unbatched_resolveBatch_never_throws None cl [JNum 3; JNum 1] nameInfo
           emptyWorld).
  reflexivity.
Defined.


(** Three keys through [links.ts] with neither [batchMode] nor
    [keyField]. *)
Lemma linksTs_three_calls_for_three_keys :
  let cl := authorClosure (authorLink "user" "id" false None) in
  let keys := [JNum 2; JNum 3; JNum 1] in
  (exists calls,
     Forall2 (fun key call =>
                target call = epUrl (targetEndpoint cl)
                /\ callVariables call !! LinksTs.varName = Some key) keys calls
     /\ LinksTs.resolveBatch cl keys nameInfo emptyWorld
        = (Normal (JArr (map (answerOf cl) calls)), logCalls calls emptyWorld))
  /\ (LinksTs.resolveBatch cl keys nameInfo emptyWorld).1
     = Normal (JArr [ JPromise (Normal (JObj [("name", JStr "Bob")]));
                      JPromise (Normal (JObj [("name", JStr "Cy")]));
                      JPromise (Normal (JObj [("name", JStr "Ada")])) ]).
Proof.
  intros cl keys. split.
  - apply (linksTs_resolveBatch_one_call_per_key cl keys nameInfo emptyWorld);
      [reflexivity|reflexivity|discriminate].
  - vm_compute. reflexivity.
Defined.

(** Three posts of one request, the first without author: the two others
    get the answers for their own authors. *)
Lemma part000_two_callers_of_three :
  let cl := authorClosure (authorLink "user" "id" false None) in
  let calls :=
    [ (JObj [("author", JNull)], nameInfo);
      (JObj [("author", JNum 3)], nameInfo);
      (JObj [("author", JNum 1)], nameInfo) ] in
  let run := resolveAll 0 calls emptyWorld in
  (exists results,
     (dispatchLoader (Part000.resolveBatch None cl) 0 run.2).1 = Normal results
     /\ length results = length (loadedKeys calls)
     /\ forall i source info value,
          calls !! i = Some (source, info) ->
          linkValue source info = Some value ->
          exists slot call,
            run.1 !! i = Some (Normal (Loading 0 slot))
            /\ carries cl nameInfo value call
            /\ results !! slot
               = Some (andThen (execute call)
                         (fun obj => getProp obj (linkField (Transformer.link cl)))))
  /\ run.1 = [Normal (Returned JNull); Normal (Loading 0 0); Normal (Loading 0 1)]
  /\ (dispatchLoader (Part000.resolveBatch None cl) 0 run.2).1
     = Normal [ Normal (JObj [("name", JStr "Cy")]);
                Normal (JObj [("name", JStr "Ada")]) ].
Proof.
  intros cl calls run. split; [|split; vm_compute; reflexivity].
  apply (part000_each_caller_gets_its_own_answer None cl 0 calls nameInfo emptyWorld);
    [reflexivity|discriminate|reflexivity|reflexivity].
Defined.

(** The rewrite of [links.ts] on a caller with a variable and two
    selections. *)
Lemma linksTs_transform_of_sample_caller :
  let cl := authorClosure (authorLink "usersByIds" "filter.id" true (Some "id")) in
  let caller :=
    sampleProxyQuery
      (callerInfo [Field None "name" [] []; FragmentSpread "Details"]
         [VariableDefinition "first" (NamedTypeNode "Int")]
         {["first" := JNum 10]}) in
  exists q',
    LinksTs.transform cl (JArr [JNum 1]) caller = Normal q'
    /\ pqFragments q' = pqFragments caller
    /\ opOperation (pqOperation q') = query
    /\ declaredNames (opVariableDefinitions (pqOperation q'))
       = declaredNames (opVariableDefinitions (pqOperation caller)) ++ [LinksTs.varName]
    /\ pqVariables q' !! LinksTs.varName = Some (JArr [JNum 1])
    /\ (forall name, name <> LinksTs.varName ->
          pqVariables q' !! name = pqVariables caller !! name)
    /\ exists argument,
         createNestedArgumentWithVariableNode (linkArgument (Transformer.link cl))
           LinksTs.varName = Normal argument
         /\ opSelectionSet (pqOperation q')
            = [Field None (linkField (Transformer.link cl)) [argument]
                 (opSelectionSet (pqOperation caller)
                  ++ (if keyFieldSet (Transformer.link cl)
                      then [Field None (keyFieldName (Transformer.link cl)) [] []]
                      else []))].
Proof.
  intros cl caller.
  destruct (LinksTs.transform cl (JArr [JNum 1]) caller) as [q'|e] eqn:Hrun;
    [|vm_compute in Hrun; discriminate].
  exists q'. split; [reflexivity|].
  exact (linksTs_transform_keeps_callers_query cl (JArr [JNum 1]) caller q' Hrun).
Defined.

(** A batch link on a field of type [Int!]: [links.ts] rejects the batch
    without a call, [part_000] asks the backend. *)
Lemma linksTs_batch_on_required_field :
  let cl := {| Transformer.link := authorLink "usersByIds" "ids" true (Some "id");
               targetEndpoint := usersEndpoint;
               originalType := GraphQLNonNull (NamedType "Int") |} in
  let keys := [JNum 3; JNum 1] in
  LinksTs.resolveBatch cl keys nameInfo emptyWorld = (Throw NonNullOfNonNull, emptyWorld)
  /\ (Part000.resolveBatch None cl keys nameInfo emptyWorld).1
     = Normal (JArr [ JObj [("name", JStr "Cy"); ("id", JNum 3)];
                      JObj [("name", JStr "Ada"); ("id", JNum 1)] ]).
Proof.
  intros cl keys. split; [|vm_compute; reflexivity].
  apply (linksTs_batch_rejects_non_null_field cl keys (JArr keys) nameInfo emptyWorld);
    reflexivity.
Defined.

End MoreOnTheSample.
